(** * The roundrobin circuit-multiplexing protocol of stegotorus

    A shallow embedding of [src/protocols/roundrobin.c]: the 16-byte block
    header codec, the modulo-2^32 sequence comparisons, the reassembly
    queue, the bridge towards the upstream, the round-robin dispatcher and
    the receive path with its circuit table.

    Conventions.
    - A C integer of width [w] is a [Z] kept in [0, 2^w); every place where
      the C code wraps is written out with [u8], [u16], [u32] or [u64].
    - An [evbuffer] is the list of its bytes, oldest byte first.
    - A function returning an [int] status returns [Ret status state]; a
      call that does not return ([obfs_assert], [log_error], a read outside
      an array) is [Abort].
    - Library calls that may fail (libevent, the generic circuit layer) are
      decided by a fault plan: a predicate on the call site. *)

From Stdlib Require Import ZArith List Bool Lia.
From stdpp Require Import base option list gmap.
Import ListNotations.

Local Open Scope Z_scope.

(** ** Fixed-width unsigned integers *)

Definition wrap (w x : Z) : Z := x mod 2 ^ w.

Definition u8  : Z -> Z := wrap 8.
Definition u16 : Z -> Z := wrap 16.
Definition u32 : Z -> Z := wrap 32.
Definition u64 : Z -> Z := wrap 64.

Definition is_u (w x : Z) : Prop := 0 <= x < 2 ^ w.

(** [x & mask] as a C truth value. *)
Definition has_flag (x mask : Z) : bool := negb (Z.land x mask =? 0).

(** ** Sequence arithmetic (roundrobin.c, lines 331-345) *)

(** True if s < t (mod 2**32). *)
Definition mod32_lt (s t : Z) : bool :=
  let d := u32 (t - s) in
  (0 <? d) && (d <? 0x80000000).

(** True if s <= t (mod 2**32). *)
Definition mod32_le (s t : Z) : bool :=
  let d := u32 (t - s) in
  d <? 0x80000000.

(** ** Block header (roundrobin.c, lines 50-65) *)

Record rr_header : Type := mk_header {
  hdr_ckt_id : Z;   (* uint64_t *)
  hdr_offset : Z;   (* uint32_t *)
  hdr_length : Z;   (* uint16_t *)
  hdr_flags  : Z    (* uint16_t *)
}.

Definition valid_header (h : rr_header) : Prop :=
  is_u 64 (hdr_ckt_id h) /\ is_u 32 (hdr_offset h) /\
  is_u 16 (hdr_length h) /\ is_u 16 (hdr_flags h).

Definition RR_WIRE_HDR_LEN : Z := 16.
Definition RR_MIN_BLOCK : Z := RR_WIRE_HDR_LEN * 2.
Definition RR_MAX_BLOCK : Z := 32767.          (* INT16_MAX *)

Definition RR_F_SYN   : Z := 0x0001.
Definition RR_F_FIN   : Z := 0x0002.
Definition RR_F_CHAFF : Z := 0x0004.

(** ** libevent buffers *)

Definition evbuffer : Type := list Z.

Definition evbuffer_get_length (b : evbuffer) : Z := Z.of_nat (length b).

(** [evbuffer_copyout]: copies out (without draining) at most [n] bytes. *)
Definition evbuffer_copyout (b : evbuffer) (n : Z) : list Z :=
  firstn (Z.to_nat n) b.

(** [evbuffer_drain] when it succeeds: drops [n] bytes from the front. *)
Definition evbuffer_drain (b : evbuffer) (n : Z) : evbuffer :=
  skipn (Z.to_nat n) b.

(** ** Header serialization and deserialization (lines 165-217) *)

Definition rr_write_header (hdr : rr_header) : list Z :=
  [ u8 (Z.shiftr (Z.land (hdr_ckt_id hdr) 0xFF00000000000000) 56);
    u8 (Z.shiftr (Z.land (hdr_ckt_id hdr) 0x00FF000000000000) 48);
    u8 (Z.shiftr (Z.land (hdr_ckt_id hdr) 0x0000FF0000000000) 40);
    u8 (Z.shiftr (Z.land (hdr_ckt_id hdr) 0x000000FF00000000) 32);
    u8 (Z.shiftr (Z.land (hdr_ckt_id hdr) 0x00000000FF000000) 24);
    u8 (Z.shiftr (Z.land (hdr_ckt_id hdr) 0x0000000000FF0000) 16);
    u8 (Z.shiftr (Z.land (hdr_ckt_id hdr) 0x000000000000FF00)  8);
    u8 (Z.shiftr (Z.land (hdr_ckt_id hdr) 0x00000000000000FF)  0);

    u8 (Z.shiftr (Z.land (hdr_offset hdr) 0xFF000000) 24);
    u8 (Z.shiftr (Z.land (hdr_offset hdr) 0x00FF0000) 16);
    u8 (Z.shiftr (Z.land (hdr_offset hdr) 0x0000FF00)  8);
    u8 (Z.shiftr (Z.land (hdr_offset hdr) 0x000000FF)  0);

    u8 (Z.shiftr (Z.land (hdr_length hdr) 0xFF00) 8);
    u8 (Z.shiftr (Z.land (hdr_length hdr) 0x00FF) 0);
    u8 (Z.shiftr (Z.land (hdr_flags hdr)  0xFF00) 8);
    u8 (Z.shiftr (Z.land (hdr_flags hdr)  0x00FF) 0) ].

(** [None] is the C function's [-1]; [Some hdr] is [0] with [*hdr] filled. *)
Definition rr_peek_header (buf : evbuffer) : option rr_header :=
  let wire_header := evbuffer_copyout buf RR_WIRE_HDR_LEN in
  if (evbuffer_get_length buf <? RR_WIRE_HDR_LEN)
     || negb (Z.of_nat (length wire_header) =? RR_WIRE_HDR_LEN)
  then None
  else
    let b (i : nat) : Z := u8 (nth i wire_header 0) in
    Some {|
      hdr_ckt_id := u64 (Z.shiftl (b 0%nat) 56 + Z.shiftl (b 1%nat) 48 +
                         Z.shiftl (b 2%nat) 40 + Z.shiftl (b 3%nat) 32 +
                         Z.shiftl (b 4%nat) 24 + Z.shiftl (b 5%nat) 16 +
                         Z.shiftl (b 6%nat)  8 + Z.shiftl (b 7%nat)  0);
      hdr_offset := u32 (Z.shiftl (b 8%nat) 24 + Z.shiftl (b 9%nat) 16 +
                         Z.shiftl (b 10%nat) 8 + Z.shiftl (b 11%nat) 0);
      hdr_length := u16 (Z.shiftl (b 12%nat) 8 + Z.shiftl (b 13%nat) 0);
      hdr_flags  := u16 (Z.shiftl (b 14%nat) 8 + Z.shiftl (b 15%nat) 0)
    |}.

(** ** Outcomes and the environment *)

Inductive abort : Type :=
| AssertFailed      (* obfs_assert(...) does not hold *)
| LogError          (* log_error(...): does not return *)
| OutOfRange        (* a read outside a smartlist, or through a dead handle *)
| OutOfFuel.        (* the loop bound of the embedding ran out *)

Inductive outcome (A : Type) : Type :=
| Ret (status : Z) (st : A)
| Abort (why : abort).

Arguments Ret {A} status st.
Arguments Abort {A} why.

(** The calls into libevent and into the generic circuit layer that the
    code checks for failure, one constructor per place in roundrobin.c. *)
Inductive call_site : Type :=
| SB_reserve_space | SB_iov_len | SB_commit_space | SB_add_buffer | SB_drain
| SBS_evbuffer_new
| RB_grow_back | RB_merge_next | RB_grow_front | RB_merge_prev
| PU_add_buffer
| FM_circuit_create | FM_open_upstream
| CS_add_buffer
| EOF_add_buffer | EOF_evbuffer_new | EOF_reserve_space | EOF_random_bytes
| EOF_commit_space
| CR_evbuffer_new | CR_drain | CR_remove_buffer.

Record env : Type := mk_env {
  fails   : call_site -> bool;   (* the fault plan *)
  entropy : nat -> Z             (* what the random generator yields, draw by draw *)
}.

Definition no_faults : call_site -> bool := fun _ => false.

(** Modelled from the spec: [random_range] (crypt.c) is missing; "draw a new
    next_block_size uniformly from [32, 32767]".  The draw number [rng] of
    the generator is folded into the closed interval from [lo] to [hi]. *)
Definition random_range (E : env) (rng : nat) (lo hi : Z) : Z * nat :=
  (lo + entropy E rng mod (hi - lo + 1), S rng).

(** Modelled from the spec: [random_bytes] (crypt.c) is missing; it fills
    [n] bytes of "random payload". *)
Definition random_bytes (E : env) (rng : nat) (n : Z) : list Z * nat :=
  (map (fun i => u8 (entropy E (rng + i)%nat)) (seq 0 (Z.to_nat n)),
   (rng + Z.to_nat n)%nat).

(** ** Transmit subroutine: rr_send_block (lines 221-272)

    The state is the three buffers [(dest, source, block)]. *)

Definition rr_send_block (E : env) (dest source block : evbuffer)
    (circuit_id offset len flags : Z)
  : outcome (evbuffer * evbuffer * evbuffer) :=
  if negb (evbuffer_get_length block =? 0) then Abort AssertFailed
  else if negb (len <=? evbuffer_get_length dest) then Abort AssertFailed
  else
    (* We take special care not to modify 'source' if any step fails. *)
    if fails E SB_reserve_space then Ret (-1) (dest, source, block)
    else
      let fail := Ret (-1) (dest, source, evbuffer_drain block (evbuffer_get_length block)) in
      if fails E SB_iov_len then fail
      else
        let hdr := {| hdr_ckt_id := circuit_id; hdr_offset := offset;
                      hdr_length := len; hdr_flags := flags |} in
        let copied := evbuffer_copyout source len in
        if negb (Z.of_nat (length copied) =? len) then fail
        else if fails E SB_commit_space then fail
        else
          let block1 := block ++ rr_write_header hdr ++ copied in
          if fails E SB_add_buffer
          then (* fail_committed *)
            Ret (-1) (dest, source, evbuffer_drain block1 (evbuffer_get_length block1))
          else
            if fails E SB_drain then Abort LogError
            else Ret 0 (dest ++ block1, evbuffer_drain source len, []).

(** ** Reassembly queue (lines 113-126)

    The C queue is a circular doubly-linked list around a sentinel whose
    [data] is NULL.  Here it is the list of its real elements in link order:
    [queue->next] is the head of the list, [queue->prev] its last element,
    and "[p] is the sentinel" is "no element is left". *)

Record rr_reassembly_elt : Type := mk_elt {
  elt_data   : evbuffer;
  elt_offset : Z;    (* uint32_t *)
  elt_length : Z;    (* uint16_t *)
  elt_flags  : Z     (* uint16_t *)
}.

(** [p->offset + p->length], computed in 32 bits. *)
Definition elt_end (p : rr_reassembly_elt) : Z :=
  u32 (elt_offset p + elt_length p).

Definition hdr_end (h : rr_header) : Z :=
  u32 (hdr_offset h + hdr_length h).

(** ** Circuits (lines 135-151) *)

Inductive circuit_life : Type :=
| Live
| AxeArmed (ms : Z)     (* circuit_arm_axe_timer(c, ms) *)
| Closed.               (* circuit_close(c) *)

Record roundrobin_circuit_t : Type := mk_circuit {
  up_input : evbuffer;   (* bufferevent_get_input(c->up_buffer) *)
  up_output : evbuffer;   (* bufferevent_get_output(c->up_buffer) *)
  recv_eof_count : nat;   (* calls of circuit_recv_eof(c) so far *)
  life : circuit_life;   (* axe timer / circuit_close *)
  reassembly_queue : list rr_reassembly_elt;   (* the real elements, queue->next first *)
  xmit_pending : evbuffer;
  downstreams : list nat;   (* smartlist of conn_t* *)
  circuit_id : Z;   (* uint64_t *)
  send_offset : Z;   (* uint32_t *)
  recv_offset : Z;   (* uint32_t *)
  next_block_size : Z;   (* uint16_t *)
  next_down : Z;   (* uint16_t *)
  received_syn : bool;
  received_fin : bool;
  sent_syn : bool;
  sent_fin : bool
}.

(** Field updates ([ckt->f = v]). *)

Definition set_up_input (v : evbuffer) (c : roundrobin_circuit_t) :=
  mk_circuit v (up_output c) (recv_eof_count c) (life c) (reassembly_queue c)
    (xmit_pending c) (downstreams c) (circuit_id c) (send_offset c)
    (recv_offset c) (next_block_size c) (next_down c) (received_syn c)
    (received_fin c) (sent_syn c) (sent_fin c).

Definition set_up_output (v : evbuffer) (c : roundrobin_circuit_t) :=
  mk_circuit (up_input c) v (recv_eof_count c) (life c) (reassembly_queue c)
    (xmit_pending c) (downstreams c) (circuit_id c) (send_offset c)
    (recv_offset c) (next_block_size c) (next_down c) (received_syn c)
    (received_fin c) (sent_syn c) (sent_fin c).

Definition set_recv_eof_count (v : nat) (c : roundrobin_circuit_t) :=
  mk_circuit (up_input c) (up_output c) v (life c) (reassembly_queue c)
    (xmit_pending c) (downstreams c) (circuit_id c) (send_offset c)
    (recv_offset c) (next_block_size c) (next_down c) (received_syn c)
    (received_fin c) (sent_syn c) (sent_fin c).

Definition set_life (v : circuit_life) (c : roundrobin_circuit_t) :=
  mk_circuit (up_input c) (up_output c) (recv_eof_count c) v
    (reassembly_queue c) (xmit_pending c) (downstreams c) (circuit_id c)
    (send_offset c) (recv_offset c) (next_block_size c) (next_down c)
    (received_syn c) (received_fin c) (sent_syn c) (sent_fin c).

Definition set_reassembly_queue (v : list rr_reassembly_elt) (c : roundrobin_circuit_t) :=
  mk_circuit (up_input c) (up_output c) (recv_eof_count c) (life c) v
    (xmit_pending c) (downstreams c) (circuit_id c) (send_offset c)
    (recv_offset c) (next_block_size c) (next_down c) (received_syn c)
    (received_fin c) (sent_syn c) (sent_fin c).

Definition set_xmit_pending (v : evbuffer) (c : roundrobin_circuit_t) :=
  mk_circuit (up_input c) (up_output c) (recv_eof_count c) (life c)
    (reassembly_queue c) v (downstreams c) (circuit_id c) (send_offset c)
    (recv_offset c) (next_block_size c) (next_down c) (received_syn c)
    (received_fin c) (sent_syn c) (sent_fin c).

Definition set_downstreams (v : list nat) (c : roundrobin_circuit_t) :=
  mk_circuit (up_input c) (up_output c) (recv_eof_count c) (life c)
    (reassembly_queue c) (xmit_pending c) v (circuit_id c) (send_offset c)
    (recv_offset c) (next_block_size c) (next_down c) (received_syn c)
    (received_fin c) (sent_syn c) (sent_fin c).

Definition set_send_offset (v : Z) (c : roundrobin_circuit_t) :=
  mk_circuit (up_input c) (up_output c) (recv_eof_count c) (life c)
    (reassembly_queue c) (xmit_pending c) (downstreams c) (circuit_id c) v
    (recv_offset c) (next_block_size c) (next_down c) (received_syn c)
    (received_fin c) (sent_syn c) (sent_fin c).

Definition set_recv_offset (v : Z) (c : roundrobin_circuit_t) :=
  mk_circuit (up_input c) (up_output c) (recv_eof_count c) (life c)
    (reassembly_queue c) (xmit_pending c) (downstreams c) (circuit_id c)
    (send_offset c) v (next_block_size c) (next_down c) (received_syn c)
    (received_fin c) (sent_syn c) (sent_fin c).

Definition set_next_block_size (v : Z) (c : roundrobin_circuit_t) :=
  mk_circuit (up_input c) (up_output c) (recv_eof_count c) (life c)
    (reassembly_queue c) (xmit_pending c) (downstreams c) (circuit_id c)
    (send_offset c) (recv_offset c) v (next_down c) (received_syn c)
    (received_fin c) (sent_syn c) (sent_fin c).

Definition set_next_down (v : Z) (c : roundrobin_circuit_t) :=
  mk_circuit (up_input c) (up_output c) (recv_eof_count c) (life c)
    (reassembly_queue c) (xmit_pending c) (downstreams c) (circuit_id c)
    (send_offset c) (recv_offset c) (next_block_size c) v (received_syn c)
    (received_fin c) (sent_syn c) (sent_fin c).

Definition set_received_syn (v : bool) (c : roundrobin_circuit_t) :=
  mk_circuit (up_input c) (up_output c) (recv_eof_count c) (life c)
    (reassembly_queue c) (xmit_pending c) (downstreams c) (circuit_id c)
    (send_offset c) (recv_offset c) (next_block_size c) (next_down c) v
    (received_fin c) (sent_syn c) (sent_fin c).

Definition set_received_fin (v : bool) (c : roundrobin_circuit_t) :=
  mk_circuit (up_input c) (up_output c) (recv_eof_count c) (life c)
    (reassembly_queue c) (xmit_pending c) (downstreams c) (circuit_id c)
    (send_offset c) (recv_offset c) (next_block_size c) (next_down c)
    (received_syn c) v (sent_syn c) (sent_fin c).

Definition set_sent_syn (v : bool) (c : roundrobin_circuit_t) :=
  mk_circuit (up_input c) (up_output c) (recv_eof_count c) (life c)
    (reassembly_queue c) (xmit_pending c) (downstreams c) (circuit_id c)
    (send_offset c) (recv_offset c) (next_block_size c) (next_down c)
    (received_syn c) (received_fin c) v (sent_fin c).

Definition set_sent_fin (v : bool) (c : roundrobin_circuit_t) :=
  mk_circuit (up_input c) (up_output c) (recv_eof_count c) (life c)
    (reassembly_queue c) (xmit_pending c) (downstreams c) (circuit_id c)
    (send_offset c) (recv_offset c) (next_block_size c) (next_down c)
    (received_syn c) (received_fin c) (sent_syn c) v.

(** xzalloc'ed, then the four fields set by [roundrobin_circuit_create]
    (lines 596-607). *)
Definition roundrobin_circuit_create : roundrobin_circuit_t :=
  {| up_input := []; up_output := []; recv_eof_count := 0%nat; life := Live;
     reassembly_queue := []; xmit_pending := []; downstreams := [];
     circuit_id := 0; send_offset := 0; recv_offset := 0;
     next_block_size := 0; next_down := 0;
     received_syn := false; received_fin := false;
     sent_syn := false; sent_fin := false |}.

(** ** rr_reassemble_block (lines 349-483) *)

(** The [while] loop under [grow_back]: can we now combine [p] with its
    successor? *)
Fixpoint merge_next (E : env) (p : rr_reassembly_elt)
    (after : list rr_reassembly_elt) : Z * rr_reassembly_elt * list rr_reassembly_elt :=
  match after with
  | [] => (0, p, [])
  | q :: rest =>
    if elt_end p =? elt_offset q then
      if fails E RB_merge_next then (-1, p, after)
      else
        merge_next E
          {| elt_data := elt_data p ++ elt_data q;
             elt_offset := elt_offset p;
             elt_length := u16 (elt_length p + elt_length q);
             elt_flags := Z.lor (elt_flags p) (elt_flags q) |}
          rest
    else (0, p, after)
  end.

(** The [while] loop under [grow_front]; [before] starts at [p->prev] and
    runs backwards. *)
Fixpoint merge_prev (E : env) (p : rr_reassembly_elt)
    (before : list rr_reassembly_elt) : Z * rr_reassembly_elt * list rr_reassembly_elt :=
  match before with
  | [] => (0, p, [])
  | q :: rest =>
    if elt_offset p =? elt_end q then
      if fails E RB_merge_prev then (-1, p, before)
      else
        merge_prev E
          {| elt_data := elt_data q ++ elt_data p;
             elt_offset := u32 (elt_offset p - elt_length q);
             elt_length := u16 (elt_length p + elt_length q);
             elt_flags := Z.lor (elt_flags p) (elt_flags q) |}
          rest
    else (0, p, before)
  end.

Definition grow_back (E : env) (block : evbuffer) (hdr : rr_header)
    (before : list rr_reassembly_elt) (p : rr_reassembly_elt)
    (after : list rr_reassembly_elt) : Z * list rr_reassembly_elt :=
  if fails E RB_grow_back then (-1, rev before ++ p :: after)
  else
    let p1 := {| elt_data := elt_data p ++ block;
                 elt_offset := elt_offset p;
                 elt_length := u16 (elt_length p + hdr_length hdr);
                 elt_flags := Z.lor (elt_flags p) (hdr_flags hdr) |} in
    let '(st, p2, after2) := merge_next E p1 after in
    (st, rev before ++ p2 :: after2).

Definition grow_front (E : env) (block : evbuffer) (hdr : rr_header)
    (before : list rr_reassembly_elt) (p : rr_reassembly_elt)
    (after : list rr_reassembly_elt) : Z * list rr_reassembly_elt :=
  if fails E RB_grow_front then (-1, rev before ++ p :: after)
  else
    let p1 := {| elt_data := block ++ elt_data p;
                 elt_offset := u32 (elt_offset p - hdr_length hdr);
                 elt_length := u16 (elt_length p + hdr_length hdr);
                 elt_flags := Z.lor (elt_flags p) (hdr_flags hdr) |} in
    let '(st, p2, before2) := merge_prev E p1 before in
    (st, rev before2 ++ p2 :: after).

(** The new element [q] linked in front of [rest]. *)
Definition link_new (block : evbuffer) (hdr : rr_header)
    (before rest : list rr_reassembly_elt) : Z * list rr_reassembly_elt :=
  (0, rev before ++
        {| elt_data := block; elt_offset := hdr_offset hdr;
           elt_length := hdr_length hdr; elt_flags := hdr_flags hdr |} :: rest).

(** The [for] loop of line 396 and what follows it.  [before] holds the
    elements already passed, last passed first (so its head is [p->prev]);
    [rest] starts at [p]. *)
Fixpoint rr_place (E : env) (block : evbuffer) (hdr : rr_header)
    (before rest : list rr_reassembly_elt) : Z * list rr_reassembly_elt :=
  match rest with
  | [] =>
    (* 'p' is the sentinel: check that this block goes after the last one *)
    match before with
    | prev :: _ =>
      if negb (mod32_lt (elt_end prev) (hdr_offset hdr))
      then (-1, rev before)
      else link_new block hdr before []
    | [] => link_new block hdr before []
    end
  | p :: after =>
    if hdr_end hdr =? elt_offset p then grow_front E block hdr before p after
    else if hdr_offset hdr =? elt_end p then grow_back E block hdr before p after
    else if mod32_lt (hdr_end hdr) (elt_offset p) then
      match before with
      | [] => link_new block hdr before rest
      | prev :: _ =>
        if mod32_lt (elt_end prev) (hdr_offset hdr)
        then link_new block hdr before rest
        else (-1, rev before ++ rest)
      end
    else rr_place E block hdr (p :: before) after
  end.

(** The three admission checks of lines 370-394, on [queue->next] and
    [queue->prev]. *)
Definition syn_rejected (hdr : rr_header) (queue : list rr_reassembly_elt) : bool :=
  has_flag (hdr_flags hdr) RR_F_SYN &&
  ((0 <? hdr_offset hdr) ||
   match queue with
   | [] => false
   | first :: _ =>
     has_flag (elt_flags first) RR_F_SYN ||
     negb (mod32_le (hdr_end hdr) (elt_offset first))
   end).

Definition fin_rejected (hdr : rr_header) (queue : list rr_reassembly_elt) : bool :=
  has_flag (hdr_flags hdr) RR_F_FIN &&
  match last queue with
  | None => false
  | Some tail =>
    has_flag (elt_flags tail) RR_F_FIN ||
    negb (mod32_le (elt_end tail) (hdr_offset hdr))
  end.

Definition plain_rejected (hdr : rr_header) (queue : list rr_reassembly_elt) : bool :=
  negb (has_flag (hdr_flags hdr) (Z.lor RR_F_SYN RR_F_FIN)) &&
  match head queue, last queue with
  | Some first, Some tail =>
    (has_flag (elt_flags first) RR_F_SYN &&
     negb (mod32_le (elt_end first) (hdr_offset hdr))) ||
    (has_flag (elt_flags tail) RR_F_FIN &&
     negb (mod32_le (hdr_end hdr) (elt_offset tail)))
  | _, _ => false
  end.

(** Add BLOCK to the reassembly queue at the appropriate location and merge
    adjacent blocks to the extent possible.  Returns the status and the
    queue. *)
Definition rr_reassemble_queue (E : env) (queue : list rr_reassembly_elt)
    (block : evbuffer) (hdr : rr_header) : Z * list rr_reassembly_elt :=
  let chaff := has_flag (hdr_flags hdr) RR_F_CHAFF in
  if chaff && negb (has_flag (hdr_flags hdr) (Z.lor RR_F_SYN RR_F_FIN))
  then (0, queue)
  else
    let hdr := if chaff
               then {| hdr_ckt_id := hdr_ckt_id hdr; hdr_offset := hdr_offset hdr;
                       hdr_length := 0; hdr_flags := hdr_flags hdr |}
               else hdr in
    let block := if chaff then evbuffer_drain block (evbuffer_get_length block)
                 else block in
    if syn_rejected hdr queue then (-1, queue)
    else if fin_rejected hdr queue then (-1, queue)
    else if plain_rejected hdr queue then (-1, queue)
    else rr_place E block hdr [] queue.

Definition rr_reassemble_block (E : env) (ckt : roundrobin_circuit_t)
    (block : evbuffer) (hdr : rr_header) : outcome roundrobin_circuit_t :=
  let '(st, q) := rr_reassemble_queue E (reassembly_queue ckt) block hdr in
  Ret st (set_reassembly_queue q ckt).

(** ** rr_push_to_upstream (lines 486-523): flush as much data toward
    upstream as we can. *)

Definition rr_push_to_upstream (E : env) (ckt : roundrobin_circuit_t)
  : outcome roundrobin_circuit_t :=
  match reassembly_queue ckt with
  | [] => Ret 0 ckt
  | ready :: rest =>
    if negb (recv_offset ckt =? elt_offset ready) then Ret 0 ckt
    else if negb (received_syn ckt) && negb (has_flag (elt_flags ready) RR_F_SYN)
    then Ret 0 ckt
    else
      let ckt := set_received_syn true ckt in
      if fails E PU_add_buffer then Ret (-1) ckt
      else
        let ckt := set_up_output (up_output ckt ++ elt_data ready) ckt in
        let ckt := set_recv_offset (u32 (recv_offset ckt + elt_length ready)) ckt in
        let fin := has_flag (elt_flags ready) RR_F_FIN in
        if fin && received_fin ckt then Abort AssertFailed
        else if fin && negb (match rest with [] => true | _ => false end)
        then Abort AssertFailed
        else
          let ckt := if fin
                     then set_recv_eof_count (S (recv_eof_count ckt))
                            (set_received_fin true ckt)
                     else ckt in
          match rest with
          | next :: _ =>
            if elt_offset next =? recv_offset ckt then Abort AssertFailed
            else Ret 0 (set_reassembly_queue rest ckt)
          | [] => Ret 0 (set_reassembly_queue rest ckt)
          end
  end.

(** ** Connections and the transmit side *)

Record conn_t : Type := mk_conn {
  conn_circuit : option nat;   (* conn->circuit: handle of the circuit, or NULL *)
  inbound  : evbuffer;         (* conn_get_inbound(conn) *)
  outbound : evbuffer;         (* conn_get_outbound(conn) *)
  eof_sent : bool              (* conn_send_eof(conn) was called *)
}.

Definition set_outbound (v : evbuffer) (cn : conn_t) : conn_t :=
  mk_conn (conn_circuit cn) (inbound cn) v (eof_sent cn).

Definition set_inbound (v : evbuffer) (cn : conn_t) : conn_t :=
  mk_conn (conn_circuit cn) v (outbound cn) (eof_sent cn).

Definition set_conn_circuit (v : option nat) (cn : conn_t) : conn_t :=
  mk_conn v (inbound cn) (outbound cn) (eof_sent cn).

Definition conn_send_eof (cn : conn_t) : conn_t :=
  mk_conn (conn_circuit cn) (inbound cn) (outbound cn) true.

(** What the dispatcher works on: one circuit, the connections its
    [downstreams] point to, and the position of the random generator. *)
Record xmit_state : Type := mk_xmit {
  x_ckt   : roundrobin_circuit_t;
  x_conns : gmap nat conn_t;
  x_rng   : nat
}.

(** Modelled from the spec: [smartlist_get] and [smartlist_len]
    (container.h) are missing; "next_down: index into downstreams".  An
    index outside the list has no element to give. *)
Definition smartlist_get (sl : list nat) (idx : Z) : option nat :=
  if idx <? 0 then None else sl !! Z.to_nat idx.

Definition smartlist_len (sl : list nat) : Z := Z.of_nat (length sl).

(** Modelled from the spec: [smartlist_remove] (container.c) is missing;
    "dropping a downstream from a circuit's list" removes that connection
    from the list. *)
Definition smartlist_remove (sl : list nat) (conn : nat) : list nat :=
  filter (fun x => x ≠ conn) sl.

(** [ckt->next_down++; if (ckt->next_down == smartlist_len(...)) ckt->next_down = 0;] *)
Definition advance_next_down (ckt : roundrobin_circuit_t) : roundrobin_circuit_t :=
  let nd := u16 (next_down ckt + 1) in
  set_next_down (if nd =? smartlist_len (downstreams ckt) then 0 else nd) ckt.

(** The head of the [for (;;)] loop of rr_send_blocks (lines 287-297):
    [None] is the [break]; otherwise the circuit, with [next_block_size]
    shrunk to what is left when this is the last block, and the flags of the
    block to send. *)
Definition rr_send_blocks_pick (at_eof : bool) (ckt : roundrobin_circuit_t)
  : option (roundrobin_circuit_t * Z) :=
  let avail := evbuffer_get_length (xmit_pending ckt) in
  let flags := if sent_syn ckt then 0 else RR_F_SYN in
  if at_eof && (0 <? avail) && (avail <=? next_block_size ckt)
  then Some (set_next_block_size (u16 avail) ckt, Z.lor flags RR_F_FIN)
  else if avail <? next_block_size ckt then None
  else Some (ckt, flags).

(** The rest of the loop body (lines 299-318): one block goes to
    [downstreams[next_down]]. *)
Definition rr_send_blocks_emit (E : env) (s : xmit_state)
    (ckt : roundrobin_circuit_t) (flags : Z) : outcome xmit_state :=
  match smartlist_get (downstreams ckt) (next_down ckt) with
  | None => Abort OutOfRange
  | Some target =>
    match x_conns s !! target with
    | None => Abort OutOfRange
    | Some cn =>
      match rr_send_block E (outbound cn) (xmit_pending ckt) []
              (circuit_id ckt) (send_offset ckt) (next_block_size ckt) flags with
      | Abort why => Abort why
      | Ret st (dest, source, _) =>
        let conns := <[target := set_outbound dest cn]> (x_conns s) in
        let ckt := set_xmit_pending source ckt in
        if negb (st =? 0) then Ret (-1) (mk_xmit ckt conns (x_rng s))
        else
          let ckt := advance_next_down ckt in
          let ckt := set_send_offset (u32 (send_offset ckt + next_block_size ckt)) ckt in
          let '(size, rng) := random_range E (x_rng s) RR_MIN_BLOCK RR_MAX_BLOCK in
          Ret 0 (mk_xmit (set_sent_syn true (set_next_block_size size ckt)) conns rng)
      end
    end
  end.

(** The [for (;;)] loop of rr_send_blocks (lines 286-319). *)
Fixpoint rr_send_blocks_loop (E : env) (fuel : nat) (at_eof : bool)
    (s : xmit_state) : outcome xmit_state :=
  match rr_send_blocks_pick at_eof (x_ckt s) with
  | None => Ret 0 s
  | Some (ckt, flags) =>
    match fuel with
    | O => Abort OutOfFuel
    | S fuel' =>
      match rr_send_blocks_emit E s ckt flags with
      | Abort why => Abort why
      | Ret st s' =>
        if negb (st =? 0) then Ret (-1) s'
        else rr_send_blocks_loop E fuel' at_eof s'
      end
    end
  end.

(** Every turn of the loop but the first one takes at least one byte out of
    [xmit_pending], so this many turns are enough. *)
Definition rr_send_blocks_fuel (s : xmit_state) : nat :=
  S (S (length (xmit_pending (x_ckt s)))).

Definition rr_send_blocks (E : env) (s : xmit_state) (at_eof : bool)
  : outcome xmit_state :=
  if fails E SBS_evbuffer_new then Ret (-1) s
  else rr_send_blocks_loop E (rr_send_blocks_fuel s) at_eof s.

(** roundrobin_circuit_send (lines 695-705) *)
Definition roundrobin_circuit_send (E : env) (s : xmit_state) : outcome xmit_state :=
  if fails E CS_add_buffer then Ret (-1) s
  else
    let ckt := x_ckt s in
    let ckt := set_up_input []
                 (set_xmit_pending (xmit_pending ckt ++ up_input ckt) ckt) in
    rr_send_blocks E (mk_xmit ckt (x_conns s) (x_rng s)) false.

(** [SMARTLIST_FOREACH(ckt->downstreams, conn_t *, conn, conn_send_eof(conn))] *)
Definition send_eof_all (ds : list nat) (conns : gmap nat conn_t) : gmap nat conn_t :=
  foldl (fun m d => alter conn_send_eof d m) conns ds.

(** roundrobin_circuit_send_eof (lines 707-779) *)
Definition roundrobin_circuit_send_eof (E : env) (s : xmit_state) : outcome xmit_state :=
  let ckt := x_ckt s in
  if smartlist_len (downstreams ckt) =? 0
  then Ret 0 (mk_xmit (set_sent_fin true ckt) (x_conns s) (x_rng s))
  else
    (* force out any remaining data *)
    if negb (evbuffer_get_length (up_input ckt) =? 0) && fails E EOF_add_buffer
    then Ret (-1) s
    else
      let ckt := set_up_input []
                   (set_xmit_pending (xmit_pending ckt ++ up_input ckt) ckt) in
      let finish (s : xmit_state) : outcome xmit_state :=
        (* flush and close all downstream connections *)
        Ret 0 (mk_xmit (set_sent_fin true (x_ckt s))
                 (send_eof_all (downstreams (x_ckt s)) (x_conns s)) (x_rng s)) in
      if 0 <? evbuffer_get_length (xmit_pending ckt) then
        match rr_send_blocks E (mk_xmit ckt (x_conns s) (x_rng s)) true with
        | Abort why => Abort why
        | Ret st s1 => if negb (st =? 0) then Ret (-1) s1 else finish s1
        end
      else
        (* send one chaff block to carry the FIN *)
        let s0 := mk_xmit ckt (x_conns s) (x_rng s) in
        if fails E EOF_evbuffer_new || fails E EOF_reserve_space
           || fails E EOF_random_bytes || fails E EOF_commit_space
        then Ret (-1) s0
        else
          let '(chaff, rng) := random_bytes E (x_rng s) (next_block_size ckt) in
          match smartlist_get (downstreams ckt) (next_down ckt) with
          | None => Abort OutOfRange
          | Some d =>
            match x_conns s !! d with
            | None => Abort OutOfRange
            | Some cn =>
              match rr_send_block E (outbound cn) chaff []
                      (circuit_id ckt) (send_offset ckt) (next_block_size ckt)
                      (Z.lor RR_F_FIN RR_F_CHAFF) with
              | Abort why => Abort why
              | Ret st (dest, _, _) =>
                let conns := <[d := set_outbound dest cn]> (x_conns s) in
                if negb (st =? 0) then Ret (-1) (mk_xmit ckt conns rng)
                else
                  (* this is not strictly necessary but we do it anyway, to
                     match the behavior in the still-have-data case *)
                  let ckt := advance_next_down ckt in
                  let ckt := set_send_offset
                               (u32 (send_offset ckt + next_block_size ckt)) ckt in
                  let '(size, rng) := random_range E rng RR_MIN_BLOCK RR_MAX_BLOCK in
                  finish (mk_xmit (set_next_block_size size ckt) conns rng)
              end
            end
          end.

(** roundrobin_circuit_add_downstream (lines 640-646) *)
Definition roundrobin_circuit_add_downstream (ckt : roundrobin_circuit_t)
    (conn : nat) : roundrobin_circuit_t :=
  set_life Live (set_downstreams (downstreams ckt ++ [conn]) ckt).

(** roundrobin_circuit_drop_downstream (lines 648-664) *)
Definition roundrobin_circuit_drop_downstream (ckt : roundrobin_circuit_t)
    (conn : nat) : roundrobin_circuit_t :=
  let ckt := set_downstreams (smartlist_remove (downstreams ckt) conn) ckt in
  (* If that was the last connection on this circuit AND we've both
     received and sent a FIN, close the circuit.  Otherwise, arm a timer. *)
  if smartlist_len (downstreams ckt) =? 0 then
    if sent_fin ckt && received_fin ckt then set_life Closed ckt
    else set_life (AxeArmed 100) ckt
  else ckt.

(** ** The receive side: circuit table, connections and the heap of circuits *)

Record world : Type := mk_world {
  circuits    : gmap nat roundrobin_circuit_t;   (* the circuits alive, by handle *)
  next_handle : nat;                             (* the next handle xzalloc gives out *)
  table       : gmap Z nat;                      (* cfg->circuits: circuit id to circuit *)
  conns       : gmap nat conn_t                  (* the connections alive, by handle *)
}.

(** Modelled from the spec: [circuit_create] (connections.c) is missing;
    "the server side creates a circuit": it calls the protocol's own
    constructor, [roundrobin_circuit_create], and hands out the new
    circuit. *)
Definition circuit_create (w : world) : nat * world :=
  (next_handle w,
   mk_world (<[next_handle w := roundrobin_circuit_create]> (circuits w))
            (S (next_handle w)) (table w) (conns w)).

(** Modelled from the spec: [circuit_add_downstream] (connections.c) is
    missing; the connection "is then attached": it records the circuit in
    the connection and calls [roundrobin_circuit_add_downstream]. *)
Definition circuit_add_downstream (w : world) (c conn : nat) : world :=
  mk_world (alter (fun ckt => roundrobin_circuit_add_downstream ckt conn) c (circuits w))
           (next_handle w) (table w)
           (alter (set_conn_circuit (Some c)) conn (conns w)).

(** Modelled from the spec: [circuit_close] (connections.c) is missing;
    "when a circuit is destroyed, all attached downstreams are closed and
    queued buffers freed".  It ends in roundrobin_circuit_free (lines
    609-638): the downstreams are detached and closed, the table entry of
    [ckt->circuit_id] is removed when that id is not zero, the circuit is
    freed. *)
Definition circuit_close (w : world) (c : nat) : world :=
  match circuits w !! c with
  | None => w
  | Some ckt =>
    mk_world (delete c (circuits w)) (next_handle w)
             (if circuit_id ckt =? 0 then table w else delete (circuit_id ckt) (table w))
             (foldl (fun m d => delete d m) (conns w) (downstreams ckt))
  end.

(** rr_find_or_make_circuit (lines 527-556) *)
Definition rr_find_or_make_circuit (E : env) (w : world) (conn : nat)
    (circuit_id : Z) : outcome world :=
  match table w !! circuit_id with
  | Some c => Ret 0 (circuit_add_downstream w c conn)
  | None =>
    if fails E FM_circuit_create then Ret (-1) w
    else
      let '(c, w) := circuit_create w in
      if fails E FM_open_upstream then Ret (-1) (circuit_close w c)
      else
        let w := mk_world (circuits w) (next_handle w)
                          (<[circuit_id := c]> (table w)) (conns w) in
        Ret 0 (circuit_add_downstream w c conn)
  end.

(** The [for (;;)] loop of roundrobin_conn_recv (lines 804-830), on the
    connection's inbound buffer and its circuit.

    [evbuffer_remove_buffer(src, dst, datlen)] returns the number of bytes it
    moved (libevent 2.0, event2/buffer.h: "@return the number of bytes
    read"), and -1 when a buffer is frozen; the C code takes every non-zero
    return for a failure. *)
Fixpoint recv_loop (E : env) (fuel : nat) (input : evbuffer)
    (ckt : roundrobin_circuit_t) : outcome (evbuffer * roundrobin_circuit_t) :=
  let avail := evbuffer_get_length input in
  if avail <? RR_MIN_BLOCK then Ret 0 (input, ckt)
  else
    match fuel with
    | O => Abort OutOfFuel
    | S fuel' =>
      match rr_peek_header input with
      | None => Ret (-1) (input, ckt)
      | Some hdr =>
        if avail <? RR_MIN_BLOCK + hdr_length hdr then Ret 0 (input, ckt)
        else if negb (circuit_id ckt =? hdr_ckt_id hdr) then Ret (-1) (input, ckt)
        else if fails E CR_evbuffer_new then Ret (-1) (input, ckt)
        else if fails E CR_drain then Ret (-1) (input, ckt)
        else
          let input := evbuffer_drain input RR_WIRE_HDR_LEN in
          if fails E CR_remove_buffer then Ret (-1) (input, ckt)
          else
            let block := firstn (Z.to_nat (hdr_length hdr)) input in
            let input := skipn (Z.to_nat (hdr_length hdr)) input in
            let moved := Z.of_nat (length block) in
            if negb (moved =? 0) then Ret (-1) (input, ckt)
            else
              match rr_reassemble_block E ckt block hdr with
              | Abort why => Abort why
              | Ret st ckt =>
                if negb (st =? 0) then Ret (-1) (input, ckt)
                else recv_loop E fuel' input ckt
              end
      end
    end.

(** roundrobin_conn_recv from [c = conn->circuit] on (lines 801-835). *)
Definition recv_attached (E : env) (w : world) (conn : nat) : outcome world :=
  match conns w !! conn with
  | None => Abort OutOfRange
  | Some cn =>
    match conn_circuit cn with
    | None => Abort AssertFailed         (* obfs_assert(conn->circuit) *)
    | Some c =>
      match circuits w !! c with
      | None => Abort OutOfRange
      | Some ckt =>
        let store (input : evbuffer) (ckt : roundrobin_circuit_t) : world :=
          mk_world (<[c := ckt]> (circuits w)) (next_handle w) (table w)
                   (<[conn := set_inbound input cn]> (conns w)) in
        match recv_loop E (length (inbound cn)) (inbound cn) ckt with
        | Abort why => Abort why
        | Ret st (input, ckt) =>
          if negb (st =? 0) then Ret (-1) (store input ckt)
          else
            match rr_push_to_upstream E ckt with
            | Abort why => Abort why
            | Ret st ckt =>
              if negb (st =? 0) then Ret (-1) (store input ckt)
              else Ret 0 (store input ckt)
            end
        end
      end
    end
  end.

(** roundrobin_conn_recv (lines 781-836) *)
Definition roundrobin_conn_recv (E : env) (w : world) (conn : nat) : outcome world :=
  match conns w !! conn with
  | None => Abort OutOfRange
  | Some cn =>
    match conn_circuit cn with
    | Some _ => recv_attached E w conn
    | None =>
      if evbuffer_get_length (inbound cn) <? RR_MIN_BLOCK then Ret 0 w
      else
        match rr_peek_header (inbound cn) with
        | None => Ret (-1) w
        | Some hdr =>
          match rr_find_or_make_circuit E w conn (hdr_ckt_id hdr) with
          | Abort why => Abort why
          | Ret st w1 =>
            if negb (st =? 0) then Ret (-1) w1 else recv_attached E w1 conn
          end
        end
    end
  end.

(** ** Definitions that follow the words of the specification

    They are compared with the code in the second part. *)

(** The big-endian digits of [x], [n] bytes wide, most significant first. *)
Fixpoint be_bytes (n : nat) (x : Z) : list Z :=
  match n with
  | O => []
  | S k => (x / 2 ^ (8 * Z.of_nat k)) mod 256 :: be_bytes k x
  end.




(** "Any two consecutive real elements of the reassembly queue are
    separated by a gap": the earlier one does not end where the later one
    starts. *)
Fixpoint gaps_between (queue : list rr_reassembly_elt) : bool :=
  match queue with
  | p :: (q :: _) as rest => negb (elt_end p =? elt_offset q) && gaps_between rest
  | _ => true
  end.

(** ** Scenarios used in the second part *)

(** No library call fails; the generator yields [ent]. *)
Definition nominal (ent : nat -> Z) : env := mk_env no_faults ent.

Definition idle_conn : conn_t := mk_conn None [] [] false.

(** A circuit as [roundrobin_circuit_create] leaves it, with connection 1
    attached. *)
Definition fresh_one_downstream : xmit_state :=
  mk_xmit (roundrobin_circuit_add_downstream roundrobin_circuit_create 1%nat)
          {[ 1%nat := idle_conn ]} 0.

(** The same with connections 1 and 2 attached. *)
Definition fresh_two_downstreams : xmit_state :=
  mk_xmit (roundrobin_circuit_add_downstream
             (roundrobin_circuit_add_downstream roundrobin_circuit_create 1%nat)
             2%nat)
          {[ 1%nat := idle_conn; 2%nat := idle_conn ]} 0.

(** Upstream bytes arrive on the circuit. *)
Definition upstream_writes (data : evbuffer) (s : xmit_state) : xmit_state :=
  mk_xmit (set_up_input (up_input (x_ckt s) ++ data) (x_ckt s))
          (x_conns s) (x_rng s).

(** What a connection has in its outbound buffer. *)
Definition outbound_of (s : xmit_state) (conn : nat) : option evbuffer :=
  outbound <$> x_conns s !! conn.

(** A received block: its header and [hdr_length] payload bytes. *)
Definition payload (n : Z) : evbuffer := repeat 0 (Z.to_nat n).

Definition data_block (offset len : Z) : rr_header :=
  {| hdr_ckt_id := 0; hdr_offset := offset; hdr_length := len; hdr_flags := 0 |}.

(** Feed the blocks to the reassembly queue one after the other, as long as
    each is accepted. *)
Definition reassemble_all (E : env) (blocks : list rr_header)
  : Z * list rr_reassembly_elt :=
  foldl (fun r h =>
           if fst r =? 0
           then rr_reassemble_queue E (snd r) (payload (hdr_length h)) h
           else r)
        (0, []) blocks.

(** The extents of the queue: offset, length and flags of each element and
    the size of its buffer. *)
Definition extents (queue : list rr_reassembly_elt) : list (Z * Z * Z * Z) :=
  map (fun e => (elt_offset e, elt_length e, elt_flags e,
                 evbuffer_get_length (elt_data e))) queue.

(** A server that knows no circuit yet, with one loose connection, 7,
    whose inbound buffer holds [input]. *)
Definition loose_conn_world (input : evbuffer) : world :=
  mk_world ∅ 0 ∅ {[ 7%nat := mk_conn None input [] false ]}.

(** A header-only block (length 0) of circuit [id]. *)
Definition bare_block (id offset flags : Z) : evbuffer :=
  rr_write_header {| hdr_ckt_id := id; hdr_offset := offset;
                     hdr_length := 0; hdr_flags := flags |}.

(** The server after circuit 0 was created for connection 7, with [input]
    in the connection's inbound buffer. *)
Definition attached_world (input : evbuffer) : world :=
  mk_world {[ 0%nat := roundrobin_circuit_add_downstream roundrobin_circuit_create 7%nat ]}
           1 {[ 0 := 0%nat ]}
           {[ 7%nat := mk_conn (Some 0%nat) input [] false ]}.

(** The flag bits other than SYN, FIN and CHAFF. *)
Definition reserved_bits (flags : Z) : Z := Z.land flags 0xFFF8.

(** ** Further definitions for the properties of the second part *)

(** A byte as the wire carries it. *)
Definition octet (b : Z) : Prop := 0 <= b < 256.

(** The bytes the reassembly queue holds, in queue order. *)
Definition queue_bytes (queue : list rr_reassembly_elt) : evbuffer :=
  concat (map elt_data queue).

(** The sum of the [length] fields of the queue. *)
Definition queued_length (queue : list rr_reassembly_elt) : Z :=
  foldr (fun e n => elt_length e + n) 0 queue.

(** The [length] field of an element is the size of its buffer, as far as
    a uint16_t can tell. *)
Definition elt_sized (e : rr_reassembly_elt) : Prop :=
  elt_length e = u16 (evbuffer_get_length (elt_data e)).

(** * Properties *)

(** Settle a boolean comparison of integers by linear arithmetic. *)
Ltac settle_cmp :=
  symmetry;
  first [ apply Z.ltb_lt | apply Z.ltb_ge | apply Z.leb_le | apply Z.leb_gt
        | apply Z.eqb_eq | apply Z.eqb_neq ];
  unfold RR_MIN_BLOCK, RR_WIRE_HDR_LEN, evbuffer_get_length in *;
  cbn [length] in *; lia.

(** ** Sequence arithmetic *)

Section SequenceArithmetic.

Lemma u32_range (x : Z) : 0 <= u32 x < 2 ^ 32.
Proof. unfold u32, wrap. apply Z.mod_pos_bound. lia. Qed.

(** C9: for all s and t, [mod32_lt s t] holds exactly when
    (t - s) mod 2^32 lies strictly between 0 and 2^31, and [mod32_le s t]
    exactly when (t - s) mod 2^32 is strictly less than 2^31. *)
Theorem mod32_comparison_semantics (s t : Z) :
  (mod32_lt s t = true <-> 0 < (t - s) mod 2 ^ 32 < 2 ^ 31) /\
  (mod32_le s t = true <-> (t - s) mod 2 ^ 32 < 2 ^ 31).
Proof.
  unfold mod32_lt, mod32_le, u32, wrap.
  change 0x80000000 with (2 ^ 31).
  split.
  - rewrite andb_true_iff, !Z.ltb_lt. tauto.
  - now rewrite Z.ltb_lt.
Qed.

Lemma mod32_lt_le (s t : Z) : mod32_lt s t = true -> mod32_le s t = true.
Proof.
  unfold mod32_lt, mod32_le. intros H.
  apply andb_true_iff in H. tauto.
Qed.

Lemma mod32_lt_irrefl (s : Z) : mod32_lt s s = false.
Proof. unfold mod32_lt. now rewrite Z.sub_diag. Qed.

Lemma mod32_lt_neq (s t : Z) : mod32_lt s t = true -> s <> t.
Proof. intros H ->. now rewrite mod32_lt_irrefl in H. Qed.

End SequenceArithmetic.

(** ** The header codec *)

Section Codec.

Lemma byte_of_field (x s : Z) :
  0 <= s ->
  u8 (Z.shiftr (Z.land x (Z.shiftl 255 s)) s) = (x / 2 ^ s) mod 256.
Proof.
  intros Hs. unfold u8, wrap.
  rewrite Z.shiftr_land, Z.shiftr_shiftl_l by lia.
  replace (s - s) with 0 by lia. rewrite Z.shiftl_0_r.
  change 255 with (Z.ones 8). rewrite Z.land_ones by lia.
  rewrite Z.shiftr_div_pow2 by lia.
  change (2 ^ 8) with 256. apply Z.mod_mod. lia.
Qed.

Lemma u8_idem (x : Z) : u8 (u8 x) = u8 x.
Proof. unfold u8, wrap. apply Z.mod_mod. lia. Qed.

Lemma u8_byte (x : Z) : u8 (x mod 256) = x mod 256.
Proof. unfold u8, wrap. change (2 ^ 8) with 256. apply Z.mod_mod. lia. Qed.

Lemma join16 (x : Z) :
  is_u 16 x ->
  u16 (Z.shiftl ((x / 2 ^ 8) mod 256) 8 + Z.shiftl ((x / 2 ^ 0) mod 256) 0) = x.
Proof.
  unfold is_u, u16, wrap. intros Hx.
  rewrite !Z.shiftl_mul_pow2 by lia.
  change (2 ^ 0) with 1. change (2 ^ 8) with 256. change (2 ^ 16) with 65536 in *.
  rewrite Z.div_1_r.
  Z.div_mod_to_equations. lia.
Qed.

Lemma join32 (x : Z) :
  is_u 32 x ->
  u32 (Z.shiftl ((x / 2 ^ 24) mod 256) 24 + Z.shiftl ((x / 2 ^ 16) mod 256) 16 +
       Z.shiftl ((x / 2 ^ 8) mod 256) 8 + Z.shiftl ((x / 2 ^ 0) mod 256) 0) = x.
Proof.
  unfold is_u, u32, wrap. intros Hx.
  rewrite !Z.shiftl_mul_pow2 by lia.
  change (2 ^ 0) with 1. change (2 ^ 8) with 256.
  change (2 ^ 16) with 65536. change (2 ^ 24) with 16777216.
  change (2 ^ 32) with 4294967296 in *.
  rewrite Z.div_1_r.
  Z.div_mod_to_equations. lia.
Qed.

Lemma join64 (x : Z) :
  is_u 64 x ->
  u64 (Z.shiftl ((x / 2 ^ 56) mod 256) 56 + Z.shiftl ((x / 2 ^ 48) mod 256) 48 +
       Z.shiftl ((x / 2 ^ 40) mod 256) 40 + Z.shiftl ((x / 2 ^ 32) mod 256) 32 +
       Z.shiftl ((x / 2 ^ 24) mod 256) 24 + Z.shiftl ((x / 2 ^ 16) mod 256) 16 +
       Z.shiftl ((x / 2 ^ 8) mod 256) 8 + Z.shiftl ((x / 2 ^ 0) mod 256) 0) = x.
Proof.
  unfold is_u, u64, wrap. intros Hx.
  rewrite !Z.shiftl_mul_pow2 by lia.
  change (2 ^ 0) with 1. change (2 ^ 8) with 256.
  change (2 ^ 16) with 65536. change (2 ^ 24) with 16777216.
  change (2 ^ 32) with 4294967296. change (2 ^ 40) with 1099511627776.
  change (2 ^ 48) with 281474976710656.
  change (2 ^ 56) with 72057594037927936.
  change (2 ^ 64) with 18446744073709551616 in *.
  rewrite Z.div_1_r.
  Z.div_mod_to_equations. lia.
Qed.

Lemma rr_write_header_layout (h : rr_header) :
  rr_write_header h =
    be_bytes 8 (hdr_ckt_id h) ++ be_bytes 4 (hdr_offset h) ++
    be_bytes 2 (hdr_length h) ++ be_bytes 2 (hdr_flags h).
Proof.
  unfold rr_write_header.
  change 0xFF00000000000000 with (Z.shiftl 255 56).
  change 0x00FF000000000000 with (Z.shiftl 255 48).
  change 0x0000FF0000000000 with (Z.shiftl 255 40).
  change 0x000000FF00000000 with (Z.shiftl 255 32).
  change 0x00000000FF000000 with (Z.shiftl 255 24).
  change 0x0000000000FF0000 with (Z.shiftl 255 16).
  change 0x000000000000FF00 with (Z.shiftl 255 8).
  change 0x00000000000000FF with (Z.shiftl 255 0).
  rewrite !byte_of_field by lia.
  reflexivity.
Qed.

Lemma rr_write_header_length (h : rr_header) :
  length (rr_write_header h) = 16%nat.
Proof. reflexivity. Qed.

(** On a buffer of at least 16 bytes the parse never fails. *)
Lemma rr_peek_header_16 (b0 b1 b2 b3 b4 b5 b6 b7 b8 b9 b10 b11 b12 b13 b14 b15 : Z)
    (rest : evbuffer) :
  rr_peek_header
    (b0 :: b1 :: b2 :: b3 :: b4 :: b5 :: b6 :: b7 :: b8 :: b9 :: b10 :: b11 ::
     b12 :: b13 :: b14 :: b15 :: rest) =
  Some {|
    hdr_ckt_id := u64 (Z.shiftl (u8 b0) 56 + Z.shiftl (u8 b1) 48 +
                       Z.shiftl (u8 b2) 40 + Z.shiftl (u8 b3) 32 +
                       Z.shiftl (u8 b4) 24 + Z.shiftl (u8 b5) 16 +
                       Z.shiftl (u8 b6)  8 + Z.shiftl (u8 b7)  0);
    hdr_offset := u32 (Z.shiftl (u8 b8) 24 + Z.shiftl (u8 b9) 16 +
                       Z.shiftl (u8 b10) 8 + Z.shiftl (u8 b11) 0);
    hdr_length := u16 (Z.shiftl (u8 b12) 8 + Z.shiftl (u8 b13) 0);
    hdr_flags  := u16 (Z.shiftl (u8 b14) 8 + Z.shiftl (u8 b15) 0)
  |}.
Proof.
  unfold rr_peek_header, evbuffer_get_length, evbuffer_copyout, RR_WIRE_HDR_LEN.
  change (Z.to_nat 16) with 16%nat.
  cbn [firstn length nth].
  change (Z.of_nat 16 =? 16) with true.
  rewrite (proj2 (Z.ltb_ge _ _)) by lia.
  reflexivity.
Qed.

(** Parsing what was written, whatever follows it in the buffer. *)
Lemma rr_peek_write_header (h : rr_header) (rest : evbuffer) :
  valid_header h ->
  rr_peek_header (rr_write_header h ++ rest) = Some h.
Proof.
  intros (Hid & Hoff & Hlen & Hfl).
  rewrite rr_write_header_layout.
  cbn [be_bytes app].
  rewrite rr_peek_header_16.
  change (8 * Z.of_nat 7) with 56. change (8 * Z.of_nat 6) with 48.
  change (8 * Z.of_nat 5) with 40. change (8 * Z.of_nat 4) with 32.
  change (8 * Z.of_nat 3) with 24. change (8 * Z.of_nat 2) with 16.
  change (8 * Z.of_nat 1) with 8. change (8 * Z.of_nat 0) with 0.
  rewrite !u8_byte.
  rewrite (join64 _ Hid), (join32 _ Hoff), (join16 _ Hlen), (join16 _ Hfl).
  now destruct h.
Qed.

(** C8: for every header [h] with valid field widths, the 16 bytes that
    [rr_write_header] produces are the big-endian, fixed-width images of
    the four fields, and [rr_peek_header] on a buffer holding them
    succeeds and yields exactly [h]. *)
Theorem header_codec_round_trip (h : rr_header) :
  valid_header h ->
  length (rr_write_header h) = 16%nat /\
  rr_write_header h =
    be_bytes 8 (hdr_ckt_id h) ++ be_bytes 4 (hdr_offset h) ++
    be_bytes 2 (hdr_length h) ++ be_bytes 2 (hdr_flags h) /\
  rr_peek_header (rr_write_header h) = Some h.
Proof.
  intros Hv. split; [reflexivity|]. split.
  - apply rr_write_header_layout.
  - rewrite <- (app_nil_r (rr_write_header h)).
    now apply rr_peek_write_header.
Qed.

Lemma header_codec_round_trip_witness :
  valid_header (mk_header 0x0102030405060708 0x0A0B0C0D 0x7FFF 0x0007) /\
  rr_peek_header
    (rr_write_header (mk_header 0x0102030405060708 0x0A0B0C0D 0x7FFF 0x0007))
  = Some (mk_header 0x0102030405060708 0x0A0B0C0D 0x7FFF 0x0007).
Proof.
  assert (Hv : valid_header (mk_header 0x0102030405060708 0x0A0B0C0D 0x7FFF 0x0007)).
  { unfold valid_header, is_u. simpl. lia. }
  split; [exact Hv|].
  apply (header_codec_round_trip
           (mk_header 0x0102030405060708 0x0A0B0C0D 0x7FFF 0x0007) Hv).
Defined.

End Codec.

(** ** rr_send_block leaves the source alone unless it succeeds *)

Section SendBlock.

Variable E : env.
Variables dest source block : evbuffer.
Variables circuit_id offset len flags : Z.

Lemma copyout_whole :
  Z.of_nat (length (evbuffer_copyout source len)) = len ->
  0 <= len /\
  evbuffer_get_length (evbuffer_drain source len) = evbuffer_get_length source - len.
Proof.
  unfold evbuffer_copyout, evbuffer_drain, evbuffer_get_length.
  rewrite length_firstn, length_skipn. lia.
Qed.

(** C10: whenever [rr_send_block] returns, it returns -1 with the source
    (and the destination) exactly as they were, or it returns 0 with the
    source drained by exactly [len] bytes, which went to the destination
    behind the header.  No failing step (space reservation, copy-out,
    commit, append to the destination) touches the source. *)
Theorem rr_send_block_atomic :
  match rr_send_block E dest source block circuit_id offset len flags with
  | Ret st (dest', source', block') =>
    (st = -1 /\ source' = source /\ dest' = dest) \/
    (st = 0 /\ source' = evbuffer_drain source len /\
     0 <= len /\
     evbuffer_get_length source' = evbuffer_get_length source - len /\
     dest' = dest ++ rr_write_header (mk_header circuit_id offset len flags)
                  ++ evbuffer_copyout source len)
  | Abort _ => True
  end.
Proof.
  unfold rr_send_block.
  destruct (evbuffer_get_length block =? 0) eqn:Hb; cbn [negb]; [|exact I].
  destruct (len <=? evbuffer_get_length dest); cbn [negb]; [|exact I].
  destruct (fails E SB_reserve_space); [now left|].
  destruct (fails E SB_iov_len); [now left|].
  destruct (Z.of_nat (length (evbuffer_copyout source len)) =? len) eqn:Hc;
    cbn [negb]; [|now left].
  destruct (fails E SB_commit_space); [now left|].
  destruct (fails E SB_add_buffer); [now left|].
  destruct (fails E SB_drain); [exact I|].
  right. apply Z.eqb_eq in Hc. apply Z.eqb_eq in Hb.
  destruct (copyout_whole Hc) as [Hlen Hdr].
  assert (block = []) as ->.
  { unfold evbuffer_get_length in Hb. destruct block; [reflexivity|discriminate]. }
  repeat split; try assumption; reflexivity.
Qed.

(** The failures do happen: with the two assertions satisfied, any failing
    step makes the call return -1. *)
Lemma rr_send_block_fails :
  block = [] -> len <= evbuffer_get_length dest ->
  fails E SB_reserve_space || fails E SB_iov_len
    || negb (Z.of_nat (length (evbuffer_copyout source len)) =? len)
    || fails E SB_commit_space || fails E SB_add_buffer = true ->
  exists block',
    rr_send_block E dest source block circuit_id offset len flags
    = Ret (-1) (dest, source, block').
Proof.
  intros -> Hd Hf. unfold rr_send_block.
  replace (len <=? evbuffer_get_length dest) with true
    by settle_cmp.
  cbn [evbuffer_get_length length Z.of_nat Z.eqb negb].
  destruct (fails E SB_reserve_space); [eauto|].
  destruct (fails E SB_iov_len); [eauto|].
  destruct (Z.of_nat (length (evbuffer_copyout source len)) =? len);
    cbn [negb]; [|eauto].
  destruct (fails E SB_commit_space); [eauto|].
  destruct (fails E SB_add_buffer); [eauto|].
  discriminate.
Qed.

(** And so does the success. *)
Lemma rr_send_block_succeeds :
  block = [] -> 0 <= len <= evbuffer_get_length dest ->
  len <= evbuffer_get_length source ->
  (forall site, fails E site = false) ->
  rr_send_block E dest source block circuit_id offset len flags
  = Ret 0 (dest ++ rr_write_header (mk_header circuit_id offset len flags)
                ++ evbuffer_copyout source len,
           evbuffer_drain source len, []).
Proof.
  intros -> Hd Hs Hf. unfold rr_send_block.
  replace (len <=? evbuffer_get_length dest) with true
    by settle_cmp.
  cbn [evbuffer_get_length length Z.of_nat Z.eqb negb].
  rewrite !Hf.
  replace (Z.of_nat (length (evbuffer_copyout source len)) =? len) with true.
  - reflexivity.
  - symmetry. apply Z.eqb_eq. unfold evbuffer_copyout, evbuffer_get_length in *.
    rewrite length_firstn. lia.
Qed.

End SendBlock.

(** ** The upstream bridge *)

Section PushToUpstream.

Variable E : env.


End PushToUpstream.

(** ** The dispatcher *)

Section Dispatcher.

Lemma random_range_bounds (E : env) (rng : nat) (lo hi : Z) :
  lo <= hi -> lo <= fst (random_range E rng lo hi) <= hi.
Proof.
  intros H. unfold random_range. cbn [fst].
  pose proof (Z.mod_pos_bound (entropy E rng) (hi - lo + 1)). lia.
Qed.

(** Dropping a downstream never touches [next_down]. *)
Lemma drop_downstream_next_down (ckt : roundrobin_circuit_t) (conn : nat) :
  next_down (roundrobin_circuit_drop_downstream ckt conn) = next_down ckt.
Proof.
  unfold roundrobin_circuit_drop_downstream.
  destruct (smartlist_len _ =? 0); [destruct (_ && _)|]; reflexivity.
Qed.

(** What a successful [rr_send_block] did to the source and to the
    destination. *)
Lemma rr_send_block_ok (E : env) (dest source block : evbuffer)
    (id off len flags : Z) (d s b : evbuffer) :
  rr_send_block E dest source block id off len flags = Ret 0 (d, s, b) ->
  s = evbuffer_drain source len /\ 0 <= len <= evbuffer_get_length source /\
  d = dest ++ block ++ rr_write_header (mk_header id off len flags)
           ++ evbuffer_copyout source len.
Proof.
  unfold rr_send_block.
  destruct (negb (evbuffer_get_length block =? 0)); [discriminate|].
  destruct (negb (len <=? evbuffer_get_length dest)); [discriminate|].
  destruct (fails E SB_reserve_space); [discriminate|].
  destruct (fails E SB_iov_len); [discriminate|].
  destruct (Z.of_nat (length (evbuffer_copyout source len)) =? len) eqn:Hc;
    cbn [negb]; [|discriminate].
  destruct (fails E SB_commit_space); [discriminate|].
  destruct (fails E SB_add_buffer); [discriminate|].
  destruct (fails E SB_drain); [discriminate|].
  intros [= <- <- _]. split; [reflexivity|]. split; [|reflexivity].
  apply Z.eqb_eq in Hc. unfold evbuffer_copyout, evbuffer_get_length in *.
  rewrite length_firstn in Hc. lia.
Qed.

Lemma rr_send_block_no_fuel (E : env) (dest source block : evbuffer)
    (id off len flags : Z) :
  rr_send_block E dest source block id off len flags <> Abort OutOfFuel.
Proof.
  unfold rr_send_block.
  repeat match goal with
         | |- context [if ?b then _ else _] => destruct b
         end; discriminate.
Qed.

Lemma rr_send_blocks_emit_no_fuel (E : env) (s : xmit_state)
    (ckt : roundrobin_circuit_t) (flags : Z) :
  rr_send_blocks_emit E s ckt flags <> Abort OutOfFuel.
Proof.
  unfold rr_send_blocks_emit.
  destruct (smartlist_get _ _) as [target|]; [|discriminate].
  destruct (x_conns s !! target) as [cn|]; [|discriminate].
  pose proof (rr_send_block_no_fuel E (outbound cn) (xmit_pending ckt) []
                (circuit_id ckt) (send_offset ckt) (next_block_size ckt) flags) as Hsb.
  destruct (rr_send_block _ _ _ _ _ _ _ _) as [st [[dest source] blk]|why];
    [|congruence].
  destruct (negb (st =? 0)); [discriminate|].
  destruct (random_range _ _ _ _). discriminate.
Qed.

(** After a block went out, [xmit_pending] lost [next_block_size] bytes and
    the next size was drawn from [32, 32767]. *)
Lemma rr_send_blocks_emit_ok (E : env) (s s' : xmit_state)
    (ckt : roundrobin_circuit_t) (flags : Z) :
  rr_send_blocks_emit E s ckt flags = Ret 0 s' ->
  xmit_pending (x_ckt s') = evbuffer_drain (xmit_pending ckt) (next_block_size ckt) /\
  0 <= next_block_size ckt <= evbuffer_get_length (xmit_pending ckt) /\
  RR_MIN_BLOCK <= next_block_size (x_ckt s') <= RR_MAX_BLOCK.
Proof.
  unfold rr_send_blocks_emit.
  destruct (smartlist_get _ _) as [target|]; [|discriminate].
  destruct (x_conns s !! target) as [cn|]; [|discriminate].
  destruct (rr_send_block _ _ _ _ _ _ _ _) as [st [[dest source] blk]|] eqn:Hsb;
    [|discriminate].
  destruct (st =? 0) eqn:Hst; cbn [negb]; [|discriminate].
  apply Z.eqb_eq in Hst. subst st.
  apply rr_send_block_ok in Hsb. destruct Hsb as (-> & Hlen & _).
  pose proof (random_range_bounds E (x_rng s) RR_MIN_BLOCK RR_MAX_BLOCK) as Hr.
  destruct (random_range E (x_rng s) RR_MIN_BLOCK RR_MAX_BLOCK) as [size rng].
  intros [= <-]. cbn [x_ckt fst] in *.
  split; [reflexivity|]. split; [exact Hlen|].
  apply Hr. unfold RR_MIN_BLOCK, RR_MAX_BLOCK, RR_WIRE_HDR_LEN. lia.
Qed.

Lemma rr_send_blocks_pick_some (at_eof : bool) (ckt ckt' : roundrobin_circuit_t)
    (flags : Z) :
  is_u 16 (next_block_size ckt) ->
  rr_send_blocks_pick at_eof ckt = Some (ckt', flags) ->
  xmit_pending ckt' = xmit_pending ckt /\
  0 <= next_block_size ckt' <= evbuffer_get_length (xmit_pending ckt) /\
  (next_block_size ckt' = 0 -> next_block_size ckt = 0).
Proof.
  unfold rr_send_blocks_pick, is_u. intros Hsz.
  set (avail := evbuffer_get_length (xmit_pending ckt)).
  destruct (at_eof && (0 <? avail) && (avail <=? next_block_size ckt)) eqn:Hfin.
  - intros [= <- _]. cbn [set_next_block_size xmit_pending next_block_size].
    apply andb_true_iff in Hfin. destruct Hfin as [Hfin Hle].
    apply andb_true_iff in Hfin. destruct Hfin as [_ Hpos].
    apply Z.ltb_lt in Hpos. apply Z.leb_le in Hle.
    change (2 ^ 16) with 65536 in Hsz.
    unfold u16, wrap. change (2 ^ 16) with 65536.
    unfold avail in *.
    rewrite Z.mod_small by lia. split; [reflexivity|]. split; lia.
  - destruct (avail <? next_block_size ckt) eqn:Hlt; [discriminate|].
    intros [= <- _]. apply Z.ltb_ge in Hlt. unfold avail in *.
    split; [reflexivity|]. split; [lia|tauto].
Qed.

(** The loop of [rr_send_blocks] stops within [rr_send_blocks_fuel] turns:
    the first turn may emit an empty block, every later one takes bytes out
    of [xmit_pending]. *)
Lemma rr_send_blocks_loop_fuel (E : env) (at_eof : bool) (fuel : nat) :
  forall s : xmit_state,
    is_u 16 (next_block_size (x_ckt s)) ->
    (length (xmit_pending (x_ckt s))
     + (if (next_block_size (x_ckt s) =? 0)%Z then 1 else 0) <= fuel)%nat ->
    rr_send_blocks_loop E fuel at_eof s <> Abort OutOfFuel.
Proof.
  induction fuel as [|fuel IH]; intros s Hsz Hlen; cbn [rr_send_blocks_loop];
    destruct (rr_send_blocks_pick at_eof (x_ckt s)) as [[ckt flags]|] eqn:Hpick;
    try discriminate;
    destruct (rr_send_blocks_pick_some _ _ _ _ Hsz Hpick) as (Hxp & Hle & Hz).
  - exfalso. unfold evbuffer_get_length, is_u in *.
    destruct (next_block_size (x_ckt s) =? 0) eqn:E0; [lia|].
    apply Z.eqb_neq in E0. lia.
  - pose proof (rr_send_blocks_emit_no_fuel E s ckt flags) as Hnf.
    destruct (rr_send_blocks_emit E s ckt flags) as [st s'|] eqn:Hemit;
      [|congruence].
    destruct (st =? 0) eqn:Hst; cbn [negb]; [|discriminate].
    apply Z.eqb_eq in Hst. subst st.
    apply rr_send_blocks_emit_ok in Hemit.
    destruct Hemit as (Hxp' & Hnb & Hrange).
    apply IH.
    + unfold is_u, RR_MIN_BLOCK, RR_MAX_BLOCK, RR_WIRE_HDR_LEN in *. lia.
    + rewrite Hxp', Hxp. unfold evbuffer_drain, evbuffer_get_length in *.
      rewrite length_skipn.
      replace (next_block_size (x_ckt s') =? 0) with false
        by settle_cmp.
      destruct (next_block_size (x_ckt s) =? 0) eqn:E0.
      * lia.
      * apply Z.eqb_neq in E0. lia.
Qed.

(** [rr_send_blocks] never stops for want of fuel. *)
Lemma rr_send_blocks_terminates (E : env) (s : xmit_state) (at_eof : bool) :
  is_u 16 (next_block_size (x_ckt s)) ->
  rr_send_blocks E s at_eof <> Abort OutOfFuel.
Proof.
  intros Hsz. unfold rr_send_blocks.
  destruct (fails E SBS_evbuffer_new); [discriminate|].
  apply rr_send_blocks_loop_fuel; [exact Hsz|].
  unfold rr_send_blocks_fuel.
  destruct (next_block_size (x_ckt s) =? 0); lia.
Qed.

(** Whenever the loop has emitted a block and returns 0, the
    [next_block_size] it leaves is in [32, 32767]. *)
Lemma rr_send_blocks_loop_size (E : env) (at_eof : bool) (fuel : nat) :
  forall s s' : xmit_state,
    rr_send_blocks_loop E fuel at_eof s = Ret 0 s' ->
    s' = s \/ RR_MIN_BLOCK <= next_block_size (x_ckt s') <= RR_MAX_BLOCK.
Proof.
  induction fuel as [|fuel IH]; intros s s'; cbn [rr_send_blocks_loop];
    destruct (rr_send_blocks_pick at_eof (x_ckt s)) as [[ckt flags]|];
    try discriminate; try (intros [= <-]; now left).
  destruct (rr_send_blocks_emit E s ckt flags) as [st s1|] eqn:Hemit;
    [|discriminate].
  destruct (st =? 0) eqn:Hst; cbn [negb]; [|discriminate].
  apply Z.eqb_eq in Hst. subst st.
  apply rr_send_blocks_emit_ok in Hemit. destruct Hemit as (_ & _ & Hrange).
  intros Hloop. destruct (IH _ _ Hloop) as [-> | H]; right; assumption.
Qed.
(** With [next_block_size] at 0 the loop never breaks: a block of length 0
    is due, whatever [xmit_pending] holds. *)
Lemma rr_send_blocks_pick_zero (at_eof : bool) (ckt : roundrobin_circuit_t) :
  next_block_size ckt = 0 ->
  exists ckt' flags,
    rr_send_blocks_pick at_eof ckt = Some (ckt', flags) /\
    next_block_size ckt' = 0.
Proof.
  intros Hz. unfold rr_send_blocks_pick. rewrite Hz.
  destruct (evbuffer_get_length (xmit_pending ckt)) as [|n|n] eqn:Hlen.
  - rewrite andb_false_r. cbn. eauto.
  - replace (Z.pos n <=? 0) with false by settle_cmp.
    rewrite andb_false_r. cbn. eauto.
  - unfold evbuffer_get_length in Hlen. lia.
Qed.

(** [conn_send_eof] on the downstreams leaves the outbound buffers alone. *)
Lemma send_eof_all_outbound (ds : list nat) :
  forall (conns : gmap nat conn_t) (d : nat),
    outbound <$> send_eof_all ds conns !! d = outbound <$> conns !! d.
Proof.
  unfold send_eof_all.
  induction ds as [|x ds IH]; intros conns d; cbn [foldl]; [reflexivity|].
  rewrite IH, lookup_alter. case_decide; [subst x|reflexivity].
  now destruct (conns !! d).
Qed.

(** Whatever the circuit, the block that carries the FIN of an empty stream
    has the flags FIN|CHAFF, whether a SYN was sent or not, and [sent_syn]
    is what it was. *)
Lemma chaff_block_flags (E : env) (s s' : xmit_state) :
  smartlist_len (downstreams (x_ckt s)) <> 0 ->
  up_input (x_ckt s) = [] -> xmit_pending (x_ckt s) = [] ->
  roundrobin_circuit_send_eof E s = Ret 0 s' ->
  exists (d : nat) (cn : conn_t) (chaff : evbuffer),
    smartlist_get (downstreams (x_ckt s)) (next_down (x_ckt s)) = Some d /\
    x_conns s !! d = Some cn /\
    outbound_of s' d =
      Some (outbound cn ++
            rr_write_header
              {| hdr_ckt_id := circuit_id (x_ckt s);
                 hdr_offset := send_offset (x_ckt s);
                 hdr_length := next_block_size (x_ckt s);
                 hdr_flags := Z.lor RR_F_FIN RR_F_CHAFF |} ++ chaff) /\
    evbuffer_get_length chaff = next_block_size (x_ckt s) /\
    sent_syn (x_ckt s') = sent_syn (x_ckt s).
Proof.
  intros Hds Hin Hxp. unfold roundrobin_circuit_send_eof.
  apply Z.eqb_neq in Hds. rewrite Hds, Hin, Hxp.
  cbn [evbuffer_get_length length Z.of_nat Z.eqb negb andb app
       set_up_input set_xmit_pending xmit_pending Z.ltb Z.compare
       downstreams next_down circuit_id send_offset next_block_size].
  destruct (_ || _); [discriminate|].
  destruct (random_bytes E (x_rng s) (next_block_size (x_ckt s))) as [chaff rng].
  destruct (smartlist_get _ _) as [d|]; [|discriminate].
  destruct (x_conns s !! d) as [cn|] eqn:Hcn; [|discriminate].
  destruct (rr_send_block _ _ _ _ _ _ _ _) as [st [[dest src] blk]|] eqn:Hsb;
    [|discriminate].
  destruct (st =? 0) eqn:Hst; cbn [negb]; [|discriminate].
  apply Z.eqb_eq in Hst. subst st.
  apply rr_send_block_ok in Hsb. destruct Hsb as (_ & Hlen & ->).
  destruct (random_range E rng RR_MIN_BLOCK RR_MAX_BLOCK) as [size rng'].
  intros [= <-]. exists d, cn, (evbuffer_copyout chaff (next_block_size (x_ckt s))).
  split; [reflexivity|]. split; [exact Hcn|].
  unfold outbound_of. cbn [x_conns x_ckt].
  rewrite send_eof_all_outbound, lookup_insert_eq.
  split; [reflexivity|]. split; [|reflexivity].
  unfold evbuffer_copyout, evbuffer_get_length in *.
  rewrite length_firstn. lia.
Qed.

(** C3 (the code departs from the claim): on a freshly created circuit
    with one downstream, [roundrobin_circuit_send_eof] succeeds and emits
    exactly one block, whose flags are FIN|CHAFF = 6 and not
    SYN|FIN|CHAFF = 7, although no SYN was sent; [sent_syn] stays false. *)
Theorem empty_eof_chaff_has_no_syn :
  exists s,
    roundrobin_circuit_send_eof (nominal (fun _ => 0)) fresh_one_downstream
      = Ret 0 s /\
    outbound_of s 1%nat =
      Some (rr_write_header
              {| hdr_ckt_id := 0; hdr_offset := 0; hdr_length := 0;
                 hdr_flags := Z.lor RR_F_FIN RR_F_CHAFF |}) /\
    Z.lor RR_F_FIN RR_F_CHAFF = 6 /\
    sent_syn (x_ckt s) = false /\ sent_fin (x_ckt s) = true.
Proof.
  eexists. split; [vm_compute; reflexivity|].
  repeat (split; [vm_compute; reflexivity|]).
  vm_compute; reflexivity.
Qed.

(** C4 (the code departs from the claim): [roundrobin_circuit_create]
    leaves [next_block_size] at 0, so the first block that
    [roundrobin_circuit_send] emits on a freshly created circuit has
    length 0, outside [32, 32767]; the five upstream bytes stay in
    [xmit_pending].  Only then is [next_block_size] drawn from the
    interval. *)
Theorem first_block_has_length_zero :
  next_block_size roundrobin_circuit_create = 0 /\
  exists s,
    roundrobin_circuit_send (nominal (fun _ => 0))
      (upstream_writes [1; 2; 3; 4; 5] fresh_one_downstream) = Ret 0 s /\
    outbound_of s 1%nat =
      Some (rr_write_header
              {| hdr_ckt_id := 0; hdr_offset := 0; hdr_length := 0;
                 hdr_flags := RR_F_SYN |}) /\
    xmit_pending (x_ckt s) = [1; 2; 3; 4; 5] /\
    next_block_size (x_ckt s) = 32.
Proof.
  split; [reflexivity|].
  eexists. split; [vm_compute; reflexivity|].
  repeat (split; [vm_compute; reflexivity|]).
  vm_compute; reflexivity.
Qed.

(** C5 (the code departs from the claim): with two downstreams, after one
    block went to the first of them [next_down] is 1; dropping a
    connection then leaves one downstream and [next_down] still 1, so the
    next emission reads the list at index 1, outside it. *)
Theorem drop_leaves_next_down_out_of_range :
  exists s,
    roundrobin_circuit_send (nominal (fun _ => 0)) fresh_two_downstreams
      = Ret 0 s /\
    next_down (x_ckt s) = 1 /\
    let ckt := roundrobin_circuit_drop_downstream (x_ckt s) 2%nat in
    downstreams ckt = [1%nat] /\
    next_down ckt = 1 /\
    smartlist_get (downstreams ckt) (next_down ckt) = None /\
    roundrobin_circuit_send (nominal (fun _ => 0))
      (upstream_writes (payload 40) (mk_xmit ckt (x_conns s) (x_rng s)))
      = Abort OutOfRange.
Proof.
  eexists. split; [vm_compute; reflexivity|].
  repeat (split; [vm_compute; reflexivity|]).
  vm_compute; reflexivity.
Qed.

End Dispatcher.

(** ** The reassembly queue *)

Section Reassembly.

(** What the two merge loops do establish: when they end with status 0,
    the grown element does not touch the neighbour they stopped at. *)
Lemma merge_next_gap (E : env) (after : list rr_reassembly_elt) :
  forall (p p' : rr_reassembly_elt) (after' : list rr_reassembly_elt),
    merge_next E p after = (0, p', after') ->
    gaps_between after = true ->
    gaps_between (p' :: after') = true.
Proof.
  induction after as [|q rest IH]; intros p p' after'; cbn [merge_next].
  - intros [= <- <-] _. reflexivity.
  - destruct (elt_end p =? elt_offset q) eqn:Hadj.
    + destruct (fails E RB_merge_next); [discriminate|].
      intros Hm Hg. apply (IH _ _ _ Hm).
      destruct rest; [reflexivity|].
      cbn [gaps_between] in Hg. apply andb_true_iff in Hg. tauto.
    + intros [= <- <-] Hg. cbn [gaps_between]. rewrite Hadj. exact Hg.
Qed.

Lemma merge_prev_gap (E : env) (before : list rr_reassembly_elt) :
  forall (p p' : rr_reassembly_elt) (before' : list rr_reassembly_elt),
    merge_prev E p before = (0, p', before') ->
    match before' with
    | q :: _ => elt_offset p' <> elt_end q
    | [] => True
    end.
Proof.
  induction before as [|q rest IH]; intros p p' before'; cbn [merge_prev].
  - intros [= <- <-]. exact I.
  - destruct (elt_offset p =? elt_end q) eqn:Hadj.
    + destruct (fails E RB_merge_prev); [discriminate|]. apply IH.
    + intros [= <- <-]. now apply Z.eqb_neq.
Qed.

(** C7 (the code departs from the claim).  First part: after blocks at
    offsets 0 and 20, both of length 10, the block at offset 10 of length
    15 is accepted (it abuts the first element) although its bytes 20..24
    overlap the second one.  Second part: six accepted blocks, none longer
    than 32767, leave two consecutive elements with no gap between them
    (the first ends at 4474, where the second starts), because the 16-bit
    length of the first one wrapped to 0 when it grew at the front. *)
Theorem overlap_accepted_and_gap_lost :
  (extents (snd (reassemble_all (nominal (fun _ => 0))
                   [data_block 0 10; data_block 20 10]))
     = [(0, 10, 0, 10); (20, 10, 0, 10)] /\
   reassemble_all (nominal (fun _ => 0))
     [data_block 0 10; data_block 20 10; data_block 10 15]
     = (0, [mk_elt (payload 25) 0 25 0; mk_elt (payload 10) 20 10 0])) /\
  (let r := reassemble_all (nominal (fun _ => 0))
              [data_block 10000 10; data_block 10011 10;
               data_block 10010 30000; data_block 40010 30000;
               data_block 4474 5537; data_block 4474 5526] in
   fst r = 0 /\
   extents (snd r) = [(4474, 0, 0, 65536); (4474, 5547, 0, 5547)] /\
   gaps_between (snd r) = false).
Proof.
  split; [split|split; [|split]]; vm_compute; reflexivity.
Qed.

End Reassembly.

(** ** The receive path *)

Section Receive.

Lemma flag_clear (fl m : Z) :
  Z.land fl 7 = 0 -> Z.land 7 m = m -> has_flag fl m = false.
Proof.
  intros H7 Hm. unfold has_flag.
  rewrite <- Hm, Z.land_assoc, H7, Z.land_0_l. reflexivity.
Qed.

Lemma rr_peek_header_length (buf : evbuffer) (h : rr_header) :
  rr_peek_header buf = Some h -> 0 <= hdr_length h.
Proof.
  unfold rr_peek_header. cbv zeta. destruct (_ || _); [intros [=]|].
  intros [= <-]. cbn [hdr_length]. unfold u16, wrap.
  apply Z.mod_pos_bound. lia.
Qed.

(** The parse fails on the buffers shorter than a header, and on no
    other. *)
Lemma rr_peek_header_none (buf : evbuffer) :
  rr_peek_header buf = None <-> evbuffer_get_length buf < RR_WIRE_HDR_LEN.
Proof.
  unfold rr_peek_header, evbuffer_copyout, evbuffer_get_length, RR_WIRE_HDR_LEN.
  cbv zeta. rewrite length_firstn. change (Z.to_nat 16) with 16%nat.
  destruct (Z.of_nat (length buf) <? 16) eqn:Hlt; cbn [orb].
  - apply Z.ltb_lt in Hlt. tauto.
  - apply Z.ltb_ge in Hlt.
    replace (Z.of_nat (16 `min` length buf) =? 16) with true by settle_cmp.
    cbn [negb]. split; [discriminate|lia].
Qed.

(** The loop bound of the embedding is never the reason to stop. *)
Lemma recv_loop_fuel (E : env) (fuel : nat) :
  forall (input : evbuffer) (ckt : roundrobin_circuit_t),
    (length input <= fuel)%nat ->
    recv_loop E fuel input ckt <> Abort OutOfFuel.
Proof.
  induction fuel as [|fuel IH]; intros input ckt Hlen; cbn [recv_loop].
  - unfold evbuffer_get_length.
    replace (Z.of_nat (length input) <? RR_MIN_BLOCK) with true; [discriminate|].
    symmetry. apply Z.ltb_lt. unfold RR_MIN_BLOCK, RR_WIRE_HDR_LEN. lia.
  - destruct (evbuffer_get_length input <? RR_MIN_BLOCK) eqn:Hav; [discriminate|].
    destruct (rr_peek_header input) as [hdr|]; [|discriminate].
    destruct (_ <? _ + _); [discriminate|].
    destruct (circuit_id ckt =? hdr_ckt_id hdr); cbn [negb]; [|discriminate].
    destruct (fails E CR_evbuffer_new); [discriminate|].
    destruct (fails E CR_drain); [discriminate|].
    destruct (fails E CR_remove_buffer); [discriminate|].
    destruct (Z.of_nat _ =? 0); cbn [negb]; [|discriminate].
    unfold rr_reassemble_block.
    destruct (rr_reassemble_queue _ _ _ _) as [st q].
    destruct (st =? 0); cbn [negb]; [|discriminate].
    apply IH. unfold evbuffer_drain.
    rewrite !length_skipn.
    apply Z.ltb_ge in Hav.
    unfold evbuffer_get_length, RR_MIN_BLOCK, RR_WIRE_HDR_LEN in *.
    change (Z.to_nat 16) with 16%nat. lia.
Qed.

(** A complete block whose circuit id is not the one stored in the
    circuit ends the loop with -1. *)
Lemma recv_loop_mismatch (E : env) (input : evbuffer)
    (ckt : roundrobin_circuit_t) (hdr : rr_header) :
  rr_peek_header input = Some hdr ->
  RR_MIN_BLOCK + hdr_length hdr <= evbuffer_get_length input ->
  circuit_id ckt <> hdr_ckt_id hdr ->
  recv_loop E (length input) input ckt = Ret (-1) (input, ckt).
Proof.
  intros Hpeek Hav Hne.
  pose proof (rr_peek_header_length _ _ Hpeek) as Hlen.
  destruct input as [|b input'].
  - unfold evbuffer_get_length, RR_MIN_BLOCK, RR_WIRE_HDR_LEN in Hav.
    cbn [length] in Hav. lia.
  - cbn [length recv_loop]. rewrite Hpeek.
    replace (evbuffer_get_length (b :: input') <? RR_MIN_BLOCK) with false
      by settle_cmp.
    replace (evbuffer_get_length (b :: input') <? RR_MIN_BLOCK + hdr_length hdr)
      with false by settle_cmp.
    replace (circuit_id ckt =? hdr_ckt_id hdr) with false
      by settle_cmp.
    reflexivity.
Qed.

(** What [rr_find_or_make_circuit] builds for an unknown id: the table
    entry is keyed by the id, the connection is attached, but the circuit
    keeps the [circuit_id] 0 that [roundrobin_circuit_create] gave it. *)
Lemma rr_find_or_make_circuit_unknown (E : env) (w : world) (conn : nat) (id : Z) :
  table w !! id = None ->
  fails E FM_circuit_create = false -> fails E FM_open_upstream = false ->
  exists w',
    rr_find_or_make_circuit E w conn id = Ret 0 w' /\
    table w' !! id = Some (next_handle w) /\
    circuits w' !! next_handle w =
      Some (roundrobin_circuit_add_downstream roundrobin_circuit_create conn) /\
    conns w' = alter (set_conn_circuit (Some (next_handle w))) conn (conns w).
Proof.
  intros Hnone Hc Ho. unfold rr_find_or_make_circuit.
  rewrite Hnone, Hc. cbn [circuit_create]. rewrite Ho.
  eexists. split; [reflexivity|].
  unfold circuit_add_downstream. cbn [table circuits conns next_handle].
  split; [apply lookup_insert_eq|].
  split; [|reflexivity].
  now rewrite lookup_alter_eq, lookup_insert_eq.
Qed.

(** For every circuit id other than 0: the first complete block of an
    unknown circuit creates the circuit and is then rejected by the
    circuit-id check. *)
Lemma unknown_circuit_block_rejected (E : env) (w : world) (conn : nat)
    (cn : conn_t) (hdr : rr_header) :
  conns w !! conn = Some cn -> conn_circuit cn = None ->
  rr_peek_header (inbound cn) = Some hdr ->
  RR_MIN_BLOCK + hdr_length hdr <= evbuffer_get_length (inbound cn) ->
  table w !! hdr_ckt_id hdr = None ->
  hdr_ckt_id hdr <> 0 ->
  fails E FM_circuit_create = false -> fails E FM_open_upstream = false ->
  exists w',
    roundrobin_conn_recv E w conn = Ret (-1) w' /\
    table w' !! hdr_ckt_id hdr = Some (next_handle w) /\
    circuit_id <$> circuits w' !! next_handle w = Some 0.
Proof.
  intros Hcn Hloose Hpeek Hav Hnone Hid Hc Ho.
  pose proof (rr_peek_header_length _ _ Hpeek) as Hlen.
  destruct (rr_find_or_make_circuit_unknown E w conn _ Hnone Hc Ho)
    as (w1 & Hmake & Htab & Hckt & Hconns).
  unfold roundrobin_conn_recv. rewrite Hcn, Hloose.
  replace (evbuffer_get_length (inbound cn) <? RR_MIN_BLOCK) with false
    by settle_cmp.
  rewrite Hpeek, Hmake. cbn [Z.eqb negb].
  unfold recv_attached.
  rewrite Hconns, lookup_alter_eq, Hcn. cbn [fmap option_fmap option_map].
  cbn [set_conn_circuit conn_circuit inbound]. rewrite Hckt.
  rewrite (recv_loop_mismatch E _ _ hdr Hpeek Hav)
    by (cbn; congruence).
  cbn [Z.eqb negb].
  eexists. split; [reflexivity|].
  cbn [table circuits]. split; [exact Htab|].
  now rewrite lookup_insert_eq.
Qed.

(** C1 (the code departs from the claim): a block of the unknown circuit
    5 arrives on a loose connection.  [rr_find_or_make_circuit] creates
    the circuit, enters it in the table under 5 and attaches the
    connection, but the circuit's own [circuit_id] stays 0; so that very
    block fails the check [ckt->circuit_id != hdr.ckt_id], the call
    returns -1, and so does every later call for a block of circuit 5. *)
Theorem created_circuit_rejects_its_own_id :
  exists w,
    roundrobin_conn_recv (nominal (fun _ => 0))
      (loose_conn_world (bare_block 5 0 RR_F_SYN ++ bare_block 5 0 RR_F_FIN))
      7%nat = Ret (-1) w /\
    table w !! 5 = Some 0%nat /\
    conn_circuit <$> conns w !! 7%nat = Some (Some 0%nat) /\
    circuit_id <$> circuits w !! 0%nat = Some 0 /\
    roundrobin_conn_recv (nominal (fun _ => 0)) w 7%nat = Ret (-1) w.
Proof.
  eexists. split; [vm_compute; reflexivity|].
  repeat (split; [vm_compute; reflexivity|]).
  vm_compute; reflexivity.
Qed.

(** One header-only block of the circuit, whose flags are reserved bits
    only, followed by less than a minimal block: the loop links it into
    the empty queue and stops. *)
Lemma recv_loop_reserved_bits (E : env) (ckt : roundrobin_circuit_t)
    (off fl : Z) (next : evbuffer) (fuel : nat) :
  is_u 64 (circuit_id ckt) -> is_u 32 off -> is_u 16 fl ->
  Z.land fl 7 = 0 ->
  reassembly_queue ckt = [] ->
  (16 <= length next < 32)%nat ->
  fails E CR_evbuffer_new = false -> fails E CR_drain = false ->
  fails E CR_remove_buffer = false ->
  recv_loop E (S fuel) (bare_block (circuit_id ckt) off fl ++ next) ckt
  = Ret 0 (next, set_reassembly_queue [mk_elt [] off 0 fl] ckt).
Proof.
  intros Hid Hoff Hfl H7 Hq Hnext Hn Hd Hr.
  assert (Hv : valid_header (mk_header (circuit_id ckt) off 0 fl)).
  { unfold valid_header, is_u in *. cbn. lia. }
  unfold bare_block. cbn [recv_loop].
  rewrite (rr_peek_write_header _ next Hv).
  unfold evbuffer_get_length, evbuffer_drain.
  rewrite length_app, rr_write_header_length.
  cbn [hdr_length hdr_ckt_id].
  replace (Z.of_nat (16 + length next) <? RR_MIN_BLOCK) with false
    by settle_cmp.
  replace (Z.of_nat (16 + length next) <? RR_MIN_BLOCK + 0) with false
    by settle_cmp.
  rewrite Z.eqb_refl, Hn, Hd, Hr. cbn [negb].
  change (Z.to_nat RR_WIRE_HDR_LEN) with (length (rr_write_header
    (mk_header (circuit_id ckt) off 0 fl))).
  rewrite skipn_app, skipn_all, Nat.sub_diag, skipn_O.
  change (Z.to_nat 0) with 0%nat.
  cbn [app]. rewrite firstn_O, skipn_O.
  cbn [length Z.of_nat Z.eqb negb].
  unfold rr_reassemble_block, rr_reassemble_queue. rewrite Hq.
  cbn [hdr_flags].
  rewrite (flag_clear fl RR_F_CHAFF H7 eq_refl). cbn [andb].
  unfold syn_rejected, fin_rejected, plain_rejected. cbn [hdr_flags last head].
  rewrite (flag_clear fl RR_F_SYN H7 eq_refl), (flag_clear fl RR_F_FIN H7 eq_refl).
  cbn [andb rr_place link_new rev app Z.eqb negb hdr_offset hdr_length hdr_flags].
  rewrite andb_false_r.
  destruct fuel; cbn [recv_loop]; unfold evbuffer_get_length;
    replace (Z.of_nat (length next) <? RR_MIN_BLOCK) with true
      by settle_cmp;
    reflexivity.
Qed.

(** C2, as the code has it: the parser validates nothing.
    [rr_peek_header] fails on the buffers shorter than 16 bytes and on no
    other.  For every header of valid field widths, whatever its flags
    (reserved bits included) and whatever its 16-bit length (values above
    32767 included), [rr_peek_header] on the 16 bytes of [rr_write_header],
    followed by anything, succeeds and yields that header.  And the
    receive path has no check of the reserved bits: a header-only block of
    the connection's circuit whose flags are any combination of reserved
    bits is accepted, and linked into the empty reassembly queue. *)
Theorem header_parse_validates_nothing :
  (forall buf : evbuffer,
      rr_peek_header buf = None <-> evbuffer_get_length buf < RR_WIRE_HDR_LEN) /\
  (forall (h : rr_header) (rest : evbuffer),
      valid_header h ->
      rr_peek_header (rr_write_header h ++ rest) = Some h) /\
  (forall (E : env) (w : world) (conn c : nat) (cn : conn_t)
          (ckt : roundrobin_circuit_t) (off fl : Z) (next : evbuffer),
      conns w !! conn = Some cn -> conn_circuit cn = Some c ->
      circuits w !! c = Some ckt ->
      is_u 64 (circuit_id ckt) -> is_u 32 off -> is_u 16 fl ->
      Z.land fl 7 = 0 ->
      reassembly_queue ckt = [] -> received_syn ckt = false ->
      inbound cn = bare_block (circuit_id ckt) off fl ++ next ->
      (16 <= length next < 32)%nat ->
      fails E CR_evbuffer_new = false -> fails E CR_drain = false ->
      fails E CR_remove_buffer = false ->
      roundrobin_conn_recv E w conn =
        Ret 0 (mk_world
                 (<[c := set_reassembly_queue [mk_elt [] off 0 fl] ckt]> (circuits w))
                 (next_handle w) (table w)
                 (<[conn := set_inbound next cn]> (conns w)))).
Proof.
  split; [exact rr_peek_header_none|].
  split; [exact rr_peek_write_header|].
  intros E w conn c cn ckt off fl next Hcn Hc Hckt Hid Hoff Hfl H7 Hq Hsyn
    Hin Hnext Hn Hd Hr.
  unfold roundrobin_conn_recv, recv_attached. rewrite Hcn, Hc, Hckt, Hin.
  rewrite length_app. unfold bare_block at 1. rewrite rr_write_header_length.
  cbn [Nat.add].
  rewrite (recv_loop_reserved_bits E ckt off fl next _ Hid Hoff Hfl H7 Hq
             Hnext Hn Hd Hr).
  cbn [Z.eqb negb].
  unfold rr_push_to_upstream.
  cbn [set_reassembly_queue reassembly_queue recv_offset received_syn elt_offset
       elt_flags].
  rewrite Hsyn, (flag_clear fl RR_F_SYN H7 eq_refl).
  destruct (recv_offset ckt =? off); reflexivity.
Qed.

Lemma header_parse_validates_nothing_witness :
  rr_peek_header (rr_write_header (mk_header 5 0 40000 0xFFFF) ++ [])
    = Some (mk_header 5 0 40000 0xFFFF) /\
  roundrobin_conn_recv (nominal (fun _ => 0))
    (attached_world (bare_block 0 0 0xFFF8 ++ bare_block 0 0 RR_F_FIN)) 7%nat
  = Ret 0 (mk_world
             {[ 0%nat := set_reassembly_queue [mk_elt [] 0 0 0xFFF8]
                           (roundrobin_circuit_add_downstream
                              roundrobin_circuit_create 7%nat) ]}
             1 {[ 0 := 0%nat ]}
             {[ 7%nat := mk_conn (Some 0%nat) (bare_block 0 0 RR_F_FIN) [] false ]}).
Proof.
  split.
  - apply (proj1 (proj2 header_parse_validates_nothing)).
    unfold valid_header, is_u. simpl. lia.
  - rewrite (proj2 (proj2 header_parse_validates_nothing) (nominal (fun _ => 0))
               (attached_world (bare_block 0 0 0xFFF8 ++ bare_block 0 0 RR_F_FIN))
               7%nat 0%nat
               (mk_conn (Some 0%nat)
                  (bare_block 0 0 0xFFF8 ++ bare_block 0 0 RR_F_FIN) [] false)
               (roundrobin_circuit_add_downstream roundrobin_circuit_create 7%nat)
               0 0xFFF8 (bare_block 0 0 RR_F_FIN));
      try reflexivity; try (unfold is_u; simpl; lia).
Defined.

(** C2, as the claim states it, fails: the first block on a loose
    connection carries SYN and every reserved flag bit (flags 0xFFF9);
    the receive path returns 0, and the block is delivered upstream as the
    SYN of circuit 0. *)
Lemma reserved_flag_bits_not_rejected :
  reserved_bits 0xFFF9 <> 0 /\
  exists w,
    roundrobin_conn_recv (nominal (fun _ => 0))
      (loose_conn_world (bare_block 0 0 0xFFF9 ++ bare_block 0 0 RR_F_FIN))
      7%nat = Ret 0 w /\
    received_syn <$> circuits w !! 0%nat = Some true /\
    reassembly_queue <$> circuits w !! 0%nat = Some [].
Proof.
  split; [vm_compute; discriminate|].
  eexists. split; [vm_compute; reflexivity|].
  split; vm_compute; reflexivity.
Qed.

(** The receive path takes the byte count that [evbuffer_remove_buffer]
    returns for a failure: a complete block with one byte of payload,
    of the right circuit, makes it return -1. *)
Remark payload_block_fails_receive :
  exists w,
    roundrobin_conn_recv (nominal (fun _ => 0))
      (loose_conn_world
         (rr_write_header (mk_header 0 0 1 RR_F_SYN) ++ [42]
          ++ bare_block 0 1 RR_F_FIN))
      7%nat = Ret (-1) w.
Proof. eexists. vm_compute. reflexivity. Qed.

End Receive.

(** * Further properties of roundrobin.c *)

(** ** Sequence arithmetic, continued *)

Section MoreSequenceArithmetic.

(** X1: [mod32_lt] is asymmetric: s < t and t < s (mod 2^32) never hold
    together, for any s and t. *)
Theorem mod32_lt_asym (s t : Z) : mod32_lt s t && mod32_lt t s = false.
Proof.
  unfold mod32_lt, u32, wrap. change 0x80000000 with 2147483648.
  change (2 ^ 32) with 4294967296.
  destruct (0 <? (t - s) mod 4294967296) eqn:H1,
           ((t - s) mod 4294967296 <? 2147483648) eqn:H2,
           (0 <? (s - t) mod 4294967296) eqn:H3,
           ((s - t) mod 4294967296 <? 2147483648) eqn:H4; try reflexivity.
  exfalso. rewrite Z.ltb_lt in *. Z.div_mod_to_equations. lia.
Qed.

Lemma u32_sub_shift (s t k : Z) : u32 (u32 (t + k) - u32 (s + k)) = u32 (t - s).
Proof.
  unfold u32, wrap. rewrite <- Zminus_mod. f_equal. lia.
Qed.

(** X2: both comparisons are invariant under a common shift of the two
    offsets, computed in 32 bits: this is what lets them work across the
    wrap of the offset space. *)
Theorem mod32_shift_invariant (s t k : Z) :
  mod32_lt (u32 (s + k)) (u32 (t + k)) = mod32_lt s t /\
  mod32_le (u32 (s + k)) (u32 (t + k)) = mod32_le s t.
Proof.
  unfold mod32_lt, mod32_le. cbv zeta. rewrite u32_sub_shift. split; reflexivity.
Qed.

(** X3: s <= t (mod 2^32) holds exactly when s < t (mod 2^32) or the two
    offsets are equal modulo 2^32. *)
Theorem mod32_le_lt_or_eq (s t : Z) :
  mod32_le s t = mod32_lt s t || (u32 s =? u32 t).
Proof.
  unfold mod32_lt, mod32_le, u32, wrap. change 0x80000000 with 2147483648.
  change (2 ^ 32) with 4294967296.
  destruct ((t - s) mod 4294967296 <? 2147483648) eqn:H2,
           (0 <? (t - s) mod 4294967296) eqn:H1,
           (s mod 4294967296 =? t mod 4294967296) eqn:H3; cbn; try reflexivity;
    exfalso; rewrite ?Z.ltb_lt, ?Z.ltb_ge, ?Z.eqb_eq, ?Z.eqb_neq in *;
    Z.div_mod_to_equations; lia.
Qed.

(** X4: the order is not total: two offsets that are 2^31 apart are not
    comparable, neither is <= the other. *)
Theorem mod32_le_antipodal (s : Z) :
  mod32_le s (u32 (s + 2 ^ 31)) = false /\ mod32_le (u32 (s + 2 ^ 31)) s = false.
Proof.
  unfold mod32_le, u32, wrap. change (2 ^ 31) with 2147483648.
  change 0x80000000 with 2147483648. change (2 ^ 32) with 4294967296.
  split; apply Z.ltb_ge; Z.div_mod_to_equations; lia.
Qed.

End MoreSequenceArithmetic.

(** ** The header codec, continued *)

Section MoreCodec.

Lemma u8_octet (b : Z) : octet b -> u8 b = b.
Proof. unfold octet, u8, wrap. intros H. apply Z.mod_small. change (2 ^ 8) with 256. lia. Qed.

Lemma split16 (b0 b1 : Z) :
  octet b0 -> octet b1 ->
  be_bytes 2 (u16 (Z.shiftl b0 8 + Z.shiftl b1 0)) = [b0; b1].
Proof.
  unfold octet, u16, wrap. intros H0 H1.
  rewrite !Z.shiftl_mul_pow2 by lia. cbn [be_bytes].
  change (8 * Z.of_nat 1) with 8. change (8 * Z.of_nat 0) with 0.
  change (2 ^ 0) with 1. change (2 ^ 8) with 256. change (2 ^ 16) with 65536.
  rewrite Z.div_1_r.
  repeat f_equal; Z.div_mod_to_equations; lia.
Qed.

Lemma split32 (b0 b1 b2 b3 : Z) :
  octet b0 -> octet b1 -> octet b2 -> octet b3 ->
  be_bytes 4 (u32 (Z.shiftl b0 24 + Z.shiftl b1 16 + Z.shiftl b2 8 + Z.shiftl b3 0))
  = [b0; b1; b2; b3].
Proof.
  unfold octet, u32, wrap. intros H0 H1 H2 H3.
  rewrite !Z.shiftl_mul_pow2 by lia. cbn [be_bytes].
  change (8 * Z.of_nat 3) with 24. change (8 * Z.of_nat 2) with 16.
  change (8 * Z.of_nat 1) with 8. change (8 * Z.of_nat 0) with 0.
  change (2 ^ 0) with 1. change (2 ^ 8) with 256. change (2 ^ 16) with 65536.
  change (2 ^ 24) with 16777216. change (2 ^ 32) with 4294967296.
  rewrite Z.div_1_r.
  repeat f_equal; Z.div_mod_to_equations; lia.
Qed.

Lemma split64 (b0 b1 b2 b3 b4 b5 b6 b7 : Z) :
  octet b0 -> octet b1 -> octet b2 -> octet b3 ->
  octet b4 -> octet b5 -> octet b6 -> octet b7 ->
  be_bytes 8 (u64 (Z.shiftl b0 56 + Z.shiftl b1 48 + Z.shiftl b2 40 + Z.shiftl b3 32 +
                   Z.shiftl b4 24 + Z.shiftl b5 16 + Z.shiftl b6 8 + Z.shiftl b7 0))
  = [b0; b1; b2; b3; b4; b5; b6; b7].
Proof.
  unfold octet, u64, wrap. intros H0 H1 H2 H3 H4 H5 H6 H7.
  rewrite !Z.shiftl_mul_pow2 by lia. cbn [be_bytes].
  change (8 * Z.of_nat 7) with 56. change (8 * Z.of_nat 6) with 48.
  change (8 * Z.of_nat 5) with 40. change (8 * Z.of_nat 4) with 32.
  change (8 * Z.of_nat 3) with 24. change (8 * Z.of_nat 2) with 16.
  change (8 * Z.of_nat 1) with 8. change (8 * Z.of_nat 0) with 0.
  change (2 ^ 0) with 1. change (2 ^ 8) with 256. change (2 ^ 16) with 65536.
  change (2 ^ 24) with 16777216. change (2 ^ 32) with 4294967296.
  change (2 ^ 40) with 1099511627776. change (2 ^ 48) with 281474976710656.
  change (2 ^ 56) with 72057594037927936.
  change (2 ^ 64) with 18446744073709551616.
  rewrite Z.div_1_r.
  repeat f_equal; Z.div_mod_to_equations; lia.
Qed.


(** X5: the codec round trip in the other direction: when the first 16
    bytes of a buffer are octets and [rr_peek_header] parses them, writing
    the parsed header with [rr_write_header] gives those 16 bytes back. *)
Theorem rr_write_peek_header (buf : evbuffer) (h : rr_header) :
  Forall octet (firstn 16 buf) ->
  rr_peek_header buf = Some h ->
  rr_write_header h = firstn 16 buf.
Proof.
  intros Hoct Hpeek.
  assert (Hlen : 16 <= evbuffer_get_length buf).
  { destruct (Z.lt_ge_cases (evbuffer_get_length buf) 16) as [Hlt|]; [|assumption].
    apply rr_peek_header_none in Hlt. congruence. }
  unfold evbuffer_get_length in Hlen.
  do 16 (destruct buf as [|? buf]; [cbn [length] in Hlen; lia|]).
  rewrite rr_peek_header_16 in Hpeek. injection Hpeek as <-.
  cbn [firstn] in *.
  repeat match goal with
         | H : Forall _ (_ :: _) |- _ => apply Forall_cons_iff in H; destruct H as [? H]
         end.
  rewrite rr_write_header_layout. cbn [hdr_ckt_id hdr_offset hdr_length hdr_flags].
  rewrite !u8_octet by assumption.
  rewrite split64, split32, !split16 by assumption.
  reflexivity.
Qed.

Lemma rr_write_peek_header_witness :
  rr_write_header (mk_header 0x0102030405060708 0x0A0B0C0D 0x0020 0x0003)
  = firstn 16 [1; 2; 3; 4; 5; 6; 7; 8; 10; 11; 12; 13; 0; 32; 0; 3; 99; 98].
Proof.
  apply rr_write_peek_header; [|reflexivity].
  cbn [firstn]. repeat constructor; lia.
Defined.

(** X6: the encoding is unambiguous: two headers of valid field widths
    with the same 16 wire bytes are the same header. *)
Theorem rr_write_header_injective (h1 h2 : rr_header) :
  valid_header h1 -> valid_header h2 ->
  rr_write_header h1 = rr_write_header h2 -> h1 = h2.
Proof.
  intros H1 H2 Heq.
  pose proof (rr_peek_write_header h1 [] H1) as P1.
  pose proof (rr_peek_write_header h2 [] H2) as P2.
  rewrite Heq in P1. congruence.
Qed.

End MoreCodec.

Lemma rr_write_header_injective_witness :
  mk_header 5 0 32 1 = mk_header 5 0 32 1.
Proof.
  apply rr_write_header_injective;
    [unfold valid_header, is_u; simpl; lia
    |unfold valid_header, is_u; simpl; lia
    |reflexivity].
Defined.

(** ** rr_send_block and the dispatcher, continued *)

Section MoreDispatcher.

(** A call of [rr_send_block] that returns 0 was given an empty block
    buffer (the first assertion). *)
Lemma rr_send_block_ok_block (E : env) (dest source block : evbuffer)
    (id off len flags : Z) (d s b : evbuffer) :
  rr_send_block E dest source block id off len flags = Ret 0 (d, s, b) ->
  block = [] /\ b = [].
Proof.
  unfold rr_send_block.
  destruct (evbuffer_get_length block =? 0) eqn:Hb; cbn [negb]; [|discriminate].
  destruct (negb (len <=? evbuffer_get_length dest)); [discriminate|].
  destruct (fails E SB_reserve_space); [discriminate|].
  destruct (fails E SB_iov_len); [discriminate|].
  destruct (negb _); [discriminate|].
  destruct (fails E SB_commit_space); [discriminate|].
  destruct (fails E SB_add_buffer); [discriminate|].
  destruct (fails E SB_drain); [discriminate|].
  intros [= _ _ <-]. split; [|reflexivity].
  apply Z.eqb_eq in Hb. unfold evbuffer_get_length in Hb.
  destruct block; [reflexivity|discriminate].
Qed.

(** A call of [rr_send_block] that returns another status than 0 left
    source and destination alone. *)
Lemma rr_send_block_err (E : env) (dest source block : evbuffer)
    (id off len flags st : Z) (d s b : evbuffer) :
  rr_send_block E dest source block id off len flags = Ret st (d, s, b) ->
  st <> 0 -> d = dest /\ s = source.
Proof.
  unfold rr_send_block.
  destruct (negb (evbuffer_get_length block =? 0)); [discriminate|].
  destruct (negb (len <=? evbuffer_get_length dest)); [discriminate|].
  destruct (fails E SB_reserve_space); [intros [= _ <- <- _]; tauto|].
  destruct (fails E SB_iov_len); [intros [= _ <- <- _]; tauto|].
  destruct (negb _); [intros [= _ <- <- _]; tauto|].
  destruct (fails E SB_commit_space); [intros [= _ <- <- _]; tauto|].
  destruct (fails E SB_add_buffer); [intros [= _ <- <- _]; tauto|].
  destruct (fails E SB_drain); [discriminate|].
  intros [= <- _ _ _] H. now elim H.
Qed.

(** X7: what a successful [rr_send_block] appends to the destination is one
    well-formed block: parsed where the old contents end, it gives the
    header passed in; the [len] bytes behind that header, followed by what
    is left in the source, are the source as it was; nothing else was
    appended. *)
Theorem rr_send_block_wire (E : env) (dest source block : evbuffer)
    (id off len flags : Z) (d s b : evbuffer) :
  is_u 64 id -> is_u 32 off -> is_u 16 len -> is_u 16 flags ->
  rr_send_block E dest source block id off len flags = Ret 0 (d, s, b) ->
  firstn (length dest) d = dest /\
  rr_peek_header (skipn (length dest) d) = Some (mk_header id off len flags) /\
  skipn (length dest + 16) d ++ s = source /\
  evbuffer_get_length d = evbuffer_get_length dest + RR_WIRE_HDR_LEN + len.
Proof.
  intros Hid Hoff Hlen Hfl Hsb.
  destruct (rr_send_block_ok_block _ _ _ _ _ _ _ _ _ _ _ Hsb) as [-> ->].
  apply rr_send_block_ok in Hsb. destruct Hsb as (-> & Hrange & ->).
  cbn [app].
  assert (Hv : valid_header (mk_header id off len flags))
    by (unfold valid_header; cbn; tauto).
  split; [|split; [|split]].
  - rewrite firstn_app, firstn_all, Nat.sub_diag. cbn [firstn]. apply app_nil_r.
  - rewrite skipn_app, skipn_all, Nat.sub_diag. cbn [skipn app].
    now apply rr_peek_write_header.
  - rewrite skipn_app, skipn_all2 by lia. cbn [app].
    replace (length dest + 16 - length dest)%nat
      with (length (rr_write_header (mk_header id off len flags)))
      by (rewrite rr_write_header_length; lia).
    rewrite skipn_app, skipn_all, Nat.sub_diag. cbn [skipn app].
    unfold evbuffer_copyout, evbuffer_drain. apply firstn_skipn.
  - unfold evbuffer_get_length, evbuffer_copyout, RR_WIRE_HDR_LEN in *.
    rewrite !length_app, rr_write_header_length, length_firstn. lia.
Qed.

Lemma rr_send_block_wire_witness :
  rr_peek_header (skipn 3 ([0; 0; 0] ++ rr_write_header (mk_header 9 64 3 1) ++ [7; 8; 9]))
  = Some (mk_header 9 64 3 1).
Proof.
  refine (proj1 (proj2 (rr_send_block_wire (nominal (fun _ => 0))
            [0; 0; 0] [7; 8; 9; 10] [] 9 64 3 1 _ [10] [] _ _ _ _ _)));
    try (unfold is_u; simpl; lia).
  vm_compute. reflexivity.
Defined.

Lemma smartlist_get_range (sl : list nat) (idx : Z) (x : nat) :
  smartlist_get sl idx = Some x -> 0 <= idx < smartlist_len sl.
Proof.
  unfold smartlist_get, smartlist_len.
  destruct (idx <? 0) eqn:Hneg; [discriminate|].
  apply Z.ltb_ge in Hneg. intros H. apply lookup_lt_Some in H. lia.
Qed.

(** Everything [rr_send_blocks_emit] does when it returns 0. *)
Lemma rr_send_blocks_emit_inv (E : env) (s s' : xmit_state)
    (ckt : roundrobin_circuit_t) (flags : Z) :
  rr_send_blocks_emit E s ckt flags = Ret 0 s' ->
  exists (target : nat) (cn : conn_t),
    smartlist_get (downstreams ckt) (next_down ckt) = Some target /\
    x_conns s !! target = Some cn /\
    x_conns s' =
      <[target := set_outbound
                    (outbound cn ++
                     rr_write_header (mk_header (circuit_id ckt) (send_offset ckt)
                                        (next_block_size ckt) flags) ++
                     evbuffer_copyout (xmit_pending ckt) (next_block_size ckt)) cn]>
        (x_conns s) /\
    x_ckt s' =
      set_sent_syn true
        (set_next_block_size (fst (random_range E (x_rng s) RR_MIN_BLOCK RR_MAX_BLOCK))
           (set_send_offset (u32 (send_offset ckt + next_block_size ckt))
              (advance_next_down
                 (set_xmit_pending
                    (evbuffer_drain (xmit_pending ckt) (next_block_size ckt)) ckt)))) /\
    0 <= next_block_size ckt <= evbuffer_get_length (xmit_pending ckt).
Proof.
  unfold rr_send_blocks_emit.
  destruct (smartlist_get _ _) as [target|]; [|discriminate].
  destruct (x_conns s !! target) as [cn|] eqn:Hcn; [|discriminate].
  destruct (rr_send_block _ _ _ _ _ _ _ _) as [st [[dest source] blk]|] eqn:Hsb;
    [|discriminate].
  destruct (st =? 0) eqn:Hst; cbn [negb]; [|discriminate].
  apply Z.eqb_eq in Hst. subst st.
  apply rr_send_block_ok in Hsb. destruct Hsb as (-> & Hlen & ->).
  destruct (random_range E (x_rng s) RR_MIN_BLOCK RR_MAX_BLOCK) as [size rng] eqn:Hr.
  intros [= <-]. exists target, cn. cbn [x_conns x_ckt fst app].
  repeat (split; [reflexivity || assumption|]). exact Hlen.
Qed.

(** X8: round robin.  When [rr_send_blocks_emit] returns 0, the block went
    to [downstreams[next_down]], the list of downstreams is what it was,
    and [next_down] is again an index into it; with fewer than 2^16
    downstreams it moved on by one, cyclically. *)
Theorem rr_send_blocks_emit_round_robin (E : env) (s s' : xmit_state)
    (ckt : roundrobin_circuit_t) (flags : Z) :
  rr_send_blocks_emit E s ckt flags = Ret 0 s' ->
  is_u 16 (next_down ckt) ->
  downstreams (x_ckt s') = downstreams ckt /\
  0 <= next_down (x_ckt s') < smartlist_len (downstreams ckt) /\
  (smartlist_len (downstreams ckt) < 2 ^ 16 ->
   next_down (x_ckt s') = (next_down ckt + 1) mod smartlist_len (downstreams ckt)).
Proof.
  intros Hemit Hnd.
  destruct (rr_send_blocks_emit_inv _ _ _ _ _ Hemit)
    as (target & cn & Hget & _ & _ & -> & _).
  apply smartlist_get_range in Hget.
  cbn [set_sent_syn set_next_block_size set_send_offset advance_next_down
       set_xmit_pending set_next_down downstreams next_down].
  split; [reflexivity|].
  unfold is_u, u16, wrap in *. change (2 ^ 16) with 65536 in *.
  set (n := smartlist_len (downstreams ckt)) in *.
  destruct ((next_down ckt + 1) mod 65536 =? n) eqn:Hwrap.
  - apply Z.eqb_eq in Hwrap. split; [lia|]. intros Hn.
    rewrite Z.mod_small in Hwrap by lia. rewrite Hwrap.
    symmetry. apply Z.mod_same. lia.
  - apply Z.eqb_neq in Hwrap. split.
    + destruct (Z.eq_dec (next_down ckt + 1) 65536) as [He|Hne].
      * rewrite He, Z.mod_same by lia. lia.
      * rewrite Z.mod_small in * by lia. lia.
    + intros Hn. rewrite Z.mod_small in * by lia.
      symmetry. apply Z.mod_small. lia.
Qed.

Lemma rr_send_blocks_emit_round_robin_witness :
  exists s',
    rr_send_blocks_emit (nominal (fun _ => 0)) fresh_two_downstreams
      (x_ckt fresh_two_downstreams) RR_F_SYN = Ret 0 s' /\
    next_down (x_ckt s') = 1.
Proof.
  eexists. split; [vm_compute; reflexivity|].
  refine (proj2 (proj2 (rr_send_blocks_emit_round_robin (nominal (fun _ => 0))
            fresh_two_downstreams _ (x_ckt fresh_two_downstreams) RR_F_SYN _ _)) _).
  - vm_compute. reflexivity.
  - unfold is_u. simpl. lia.
  - vm_compute. reflexivity.
Defined.

(** X9: one emission changes one connection only.  When
    [rr_send_blocks_emit] returns 0, the outbound buffer of the target grew
    by the header (circuit id, [send_offset], [next_block_size], flags) and
    the first [next_block_size] bytes of [xmit_pending]; those bytes
    followed by the new [xmit_pending] are the old [xmit_pending];
    [send_offset] advanced by [next_block_size] in 32 bits; [sent_syn] is
    set; every other connection is untouched. *)
Theorem rr_send_blocks_emit_effect (E : env) (s s' : xmit_state)
    (ckt : roundrobin_circuit_t) (flags : Z) :
  rr_send_blocks_emit E s ckt flags = Ret 0 s' ->
  exists (target : nat) (cn : conn_t) (data : evbuffer),
    smartlist_get (downstreams ckt) (next_down ckt) = Some target /\
    x_conns s !! target = Some cn /\
    evbuffer_get_length data = next_block_size ckt /\
    data ++ xmit_pending (x_ckt s') = xmit_pending ckt /\
    outbound_of s' target =
      Some (outbound cn ++
            rr_write_header (mk_header (circuit_id ckt) (send_offset ckt)
                               (next_block_size ckt) flags) ++ data) /\
    (forall other : nat, other <> target -> x_conns s' !! other = x_conns s !! other) /\
    send_offset (x_ckt s') = u32 (send_offset ckt + next_block_size ckt) /\
    sent_syn (x_ckt s') = true.
Proof.
  intros Hemit.
  destruct (rr_send_blocks_emit_inv _ _ _ _ _ Hemit)
    as (target & cn & Hget & Hcn & Hconns & Hckt & Hlen).
  exists target, cn, (evbuffer_copyout (xmit_pending ckt) (next_block_size ckt)).
  rewrite Hckt. unfold outbound_of. rewrite Hconns.
  cbn [set_sent_syn set_next_block_size set_send_offset advance_next_down
       set_xmit_pending set_next_down xmit_pending send_offset sent_syn
       next_block_size].
  split; [exact Hget|]. split; [exact Hcn|].
  split.
  { unfold evbuffer_copyout, evbuffer_get_length in *. rewrite length_firstn. lia. }
  split; [apply firstn_skipn|].
  split; [now rewrite lookup_insert_eq|].
  split; [|split; reflexivity].
  intros other Hne. now rewrite lookup_insert_ne.
Qed.

Lemma rr_send_blocks_emit_effect_witness :
  exists s',
    rr_send_blocks_emit (nominal (fun _ => 0)) fresh_two_downstreams
      (x_ckt fresh_two_downstreams) RR_F_SYN = Ret 0 s' /\
    sent_syn (x_ckt s') = true.
Proof.
  eexists. split; [vm_compute; reflexivity|].
  match goal with
  | |- sent_syn (x_ckt ?s1) = true =>
    destruct (rr_send_blocks_emit_effect (nominal (fun _ => 0))
                fresh_two_downstreams s1 (x_ckt fresh_two_downstreams) RR_F_SYN)
      as (t & cn & data & _ & _ & _ & _ & _ & _ & _ & H)
  end.
  - vm_compute. reflexivity.
  - exact H.
Defined.

(** What [rr_send_blocks_emit] leaves behind when it returns another status
    than 0: the circuit it was given and the connections as they were. *)
Lemma rr_send_blocks_emit_err (E : env) (s s' : xmit_state)
    (ckt : roundrobin_circuit_t) (flags st : Z) :
  rr_send_blocks_emit E s ckt flags = Ret st s' -> st <> 0 ->
  x_ckt s' = set_xmit_pending (xmit_pending ckt) ckt.
Proof.
  unfold rr_send_blocks_emit.
  destruct (smartlist_get _ _) as [target|]; [|discriminate].
  destruct (x_conns s !! target) as [cn|]; [|discriminate].
  destruct (rr_send_block _ _ _ _ _ _ _ _) as [st0 [[dest source] blk]|] eqn:Hsb;
    [|discriminate].
  destruct (st0 =? 0) eqn:Hst; cbn [negb].
  - destruct (random_range _ _ _ _). intros [= <- _] H. now elim H.
  - apply Z.eqb_neq in Hst.
    destruct (rr_send_block_err _ _ _ _ _ _ _ _ _ _ _ _ Hsb Hst) as [_ ->].
    now intros [= _ <-] _.
Qed.

Lemma rr_send_blocks_pick_frame (at_eof : bool) (ckt ckt' : roundrobin_circuit_t)
    (flags : Z) :
  rr_send_blocks_pick at_eof ckt = Some (ckt', flags) ->
  exists size, ckt' = set_next_block_size size ckt.
Proof.
  unfold rr_send_blocks_pick.
  destruct (_ && _ && _); [intros [= <- _]; eauto|].
  destruct (_ <? _); [discriminate|].
  intros [= <- _]. exists (next_block_size ckt). now destruct ckt.
Qed.

(** X10: [send_offset] is the stream position of the first byte still in
    [xmit_pending]: whatever [rr_send_blocks]'s loop returns, the sum of
    [send_offset] and the number of pending bytes, taken in 32 bits, is what
    it was on entry. *)
Theorem rr_send_blocks_loop_position (E : env) (at_eof : bool) (fuel : nat) :
  forall (s s' : xmit_state) (st : Z),
    rr_send_blocks_loop E fuel at_eof s = Ret st s' ->
    u32 (send_offset (x_ckt s') + evbuffer_get_length (xmit_pending (x_ckt s')))
    = u32 (send_offset (x_ckt s) + evbuffer_get_length (xmit_pending (x_ckt s))).
Proof.
  induction fuel as [|fuel IH]; intros s s' st; cbn [rr_send_blocks_loop];
    destruct (rr_send_blocks_pick at_eof (x_ckt s)) as [[ckt flags]|] eqn:Hpick;
    try discriminate; try (now intros [= _ <-]).
  destruct (rr_send_blocks_pick_frame _ _ _ _ Hpick) as [size ->].
  destruct (rr_send_blocks_emit E s _ flags) as [st1 s1|] eqn:Hemit; [|discriminate].
  destruct (st1 =? 0) eqn:Hst; cbn [negb].
  - apply Z.eqb_eq in Hst. subst st1. intros Hloop.
    rewrite (IH _ _ _ Hloop).
    destruct (rr_send_blocks_emit_inv _ _ _ _ _ Hemit)
      as (_ & _ & _ & _ & _ & -> & Hlen).
    cbn [set_sent_syn set_next_block_size set_send_offset advance_next_down
         set_xmit_pending set_next_down xmit_pending send_offset next_block_size] in *.
    unfold evbuffer_drain, evbuffer_get_length in *. rewrite length_skipn.
    unfold u32, wrap. rewrite Zplus_mod_idemp_l. f_equal. lia.
  - apply Z.eqb_neq in Hst. intros [= _ <-].
    rewrite (rr_send_blocks_emit_err _ _ _ _ _ _ Hemit Hst). reflexivity.
Qed.

Lemma rr_send_blocks_loop_position_witness :
  exists s',
    roundrobin_circuit_send (nominal (fun _ => 0))
      (upstream_writes [1; 2; 3; 4; 5] fresh_one_downstream) = Ret 0 s' /\
    u32 (send_offset (x_ckt s') + evbuffer_get_length (xmit_pending (x_ckt s'))) = 5.
Proof.
  eexists. split; [vm_compute; reflexivity|].
  match goal with
  | |- u32 (send_offset (x_ckt ?s1) + _) = _ =>
    rewrite (rr_send_blocks_loop_position (nominal (fun _ => 0)) false 7
               (mk_xmit (set_up_input [] (set_xmit_pending [1; 2; 3; 4; 5]
                           (x_ckt fresh_one_downstream)))
                        (x_conns fresh_one_downstream) 0) s1 0)
  end.
  - vm_compute. reflexivity.
  - vm_compute. reflexivity.
Defined.

(** The [break] of the loop. *)
Lemma rr_send_blocks_pick_none (at_eof : bool) (ckt : roundrobin_circuit_t) :
  rr_send_blocks_pick at_eof ckt = None ->
  evbuffer_get_length (xmit_pending ckt) < next_block_size ckt /\
  (at_eof = true -> xmit_pending ckt = []).
Proof.
  unfold rr_send_blocks_pick.
  cbv zeta.
  destruct (at_eof && _ && _) eqn:Hfin; [intros H; discriminate H|].
  destruct (_ <? next_block_size ckt) eqn:Hlt; [|intros H; discriminate H].
  intros _. apply Z.ltb_lt in Hlt. split; [exact Hlt|]. intros ->.
  cbn [andb] in Hfin. apply andb_false_iff in Hfin.
  rewrite Z.ltb_ge, Z.leb_gt in Hfin.
  unfold evbuffer_get_length in *.
  destruct (xmit_pending ckt); [reflexivity|cbn [length] in *; lia].
Qed.

(** The loop returns 0 through its [break] only. *)
Lemma rr_send_blocks_loop_break (E : env) (at_eof : bool) (fuel : nat) :
  forall s s' : xmit_state,
    rr_send_blocks_loop E fuel at_eof s = Ret 0 s' ->
    rr_send_blocks_pick at_eof (x_ckt s') = None.
Proof.
  induction fuel as [|fuel IH]; intros s s'; cbn [rr_send_blocks_loop];
    destruct (rr_send_blocks_pick at_eof (x_ckt s)) as [[ckt flags]|] eqn:Hpick;
    try discriminate.
  - now intros [= <-].
  - destruct (rr_send_blocks_emit E s ckt flags) as [st1 s1|]; [|discriminate].
    destruct (negb (st1 =? 0)); [discriminate|]. apply IH.
  - now intros [= <-].
Qed.

(** X11: when the loop of [rr_send_blocks] returns 0, fewer bytes than
    [next_block_size] are left in [xmit_pending]; at end of stream none is
    left. *)
Theorem rr_send_blocks_loop_exit (E : env) (at_eof : bool) (fuel : nat)
    (s s' : xmit_state) :
  rr_send_blocks_loop E fuel at_eof s = Ret 0 s' ->
  evbuffer_get_length (xmit_pending (x_ckt s')) < next_block_size (x_ckt s') /\
  (at_eof = true -> xmit_pending (x_ckt s') = []).
Proof.
  intros Hloop. apply rr_send_blocks_loop_break in Hloop.
  now apply rr_send_blocks_pick_none.
Qed.

Lemma rr_send_blocks_loop_exit_witness :
  evbuffer_get_length [1; 2; 3; 4; 5] < 32.
Proof.
  refine (proj1 (rr_send_blocks_loop_exit (nominal (fun _ => 0)) false 7
            (mk_xmit (set_up_input [] (set_xmit_pending [1; 2; 3; 4; 5]
                        (x_ckt fresh_one_downstream)))
                     (x_conns fresh_one_downstream) 0)
            (mk_xmit (set_sent_syn true (set_next_block_size 32
                        (set_xmit_pending [1; 2; 3; 4; 5]
                           (x_ckt fresh_one_downstream))))
                     {[ 1%nat := mk_conn None [] (rr_write_header (mk_header 0 0 0 1)) false ]}
                     1) _)).
  vm_compute. reflexivity.
Defined.

(** The loop touches neither the list of downstreams nor the upstream
    input. *)
Lemma rr_send_blocks_loop_frame (E : env) (at_eof : bool) (fuel : nat) :
  forall (s s' : xmit_state) (st : Z),
    rr_send_blocks_loop E fuel at_eof s = Ret st s' ->
    downstreams (x_ckt s') = downstreams (x_ckt s) /\
    up_input (x_ckt s') = up_input (x_ckt s).
Proof.
  induction fuel as [|fuel IH]; intros s s' st; cbn [rr_send_blocks_loop];
    destruct (rr_send_blocks_pick at_eof (x_ckt s)) as [[ckt flags]|] eqn:Hpick;
    try discriminate; try (now intros [= _ <-]).
  destruct (rr_send_blocks_pick_frame _ _ _ _ Hpick) as [size ->].
  destruct (rr_send_blocks_emit E s _ flags) as [st1 s1|] eqn:Hemit; [|discriminate].
  destruct (st1 =? 0) eqn:Hst; cbn [negb].
  - apply Z.eqb_eq in Hst. subst st1. intros Hloop.
    destruct (IH _ _ _ Hloop) as [-> ->].
    destruct (rr_send_blocks_emit_inv _ _ _ _ _ Hemit)
      as (_ & _ & _ & _ & _ & -> & _).
    split; reflexivity.
  - apply Z.eqb_neq in Hst. intros [= _ <-].
    rewrite (rr_send_blocks_emit_err _ _ _ _ _ _ Hemit Hst). split; reflexivity.
Qed.

(** [conn_send_eof] on every downstream: a connection of the list has its
    EOF sent, and one that had it keeps it. *)
Lemma send_eof_all_sent (ds : list nat) :
  forall (conns : gmap nat conn_t) (d : nat) (cn : conn_t),
    send_eof_all ds conns !! d = Some cn ->
    exists cn0, conns !! d = Some cn0 /\
                (eof_sent cn0 = true -> eof_sent cn = true) /\
                (d ∈ ds -> eof_sent cn = true).
Proof.
  unfold send_eof_all.
  induction ds as [|x ds IH]; intros conns d cn; cbn [foldl].
  - intros H. exists cn. split; [exact H|]. split; [tauto|].
    intros Hin. now apply elem_of_nil in Hin.
  - intros H. destruct (IH _ _ _ H) as (cn1 & Hcn1 & Hkeep & Hin).
    rewrite lookup_alter in Hcn1. case_decide as Hx.
    + subst x. destruct (conns !! d) as [cn0|] eqn:Hcn0; [|discriminate].
      injection Hcn1 as <-. exists cn0. split; [reflexivity|].
      split; intros _; apply Hkeep; reflexivity.
    + exists cn1. split; [exact Hcn1|]. split; [exact Hkeep|].
      intros Hd. apply elem_of_cons in Hd. destruct Hd as [->|Hd]; [congruence|auto].
Qed.

(** X12: when [roundrobin_circuit_send_eof] returns 0, [sent_fin] is set and
    the downstreams are the ones it was called with; if there is at least
    one, nothing is left in [xmit_pending] nor in the upstream input, and
    every downstream connection has had its EOF sent. *)
Theorem roundrobin_circuit_send_eof_done (E : env) (s s' : xmit_state) :
  roundrobin_circuit_send_eof E s = Ret 0 s' ->
  sent_fin (x_ckt s') = true /\
  downstreams (x_ckt s') = downstreams (x_ckt s) /\
  (downstreams (x_ckt s) <> [] ->
   xmit_pending (x_ckt s') = [] /\ up_input (x_ckt s') = [] /\
   forall (d : nat) (cn : conn_t),
     d ∈ downstreams (x_ckt s) -> x_conns s' !! d = Some cn -> eof_sent cn = true).
Proof.
  unfold roundrobin_circuit_send_eof.
  destruct (smartlist_len (downstreams (x_ckt s)) =? 0) eqn:Hlen.
  { intros [= <-]. cbn [x_ckt set_sent_fin sent_fin downstreams].
    split; [reflexivity|]. split; [reflexivity|]. intros Hne.
    apply Z.eqb_eq in Hlen. unfold smartlist_len in Hlen.
    destruct (downstreams (x_ckt s)); [now elim Hne|cbn [length] in Hlen; lia]. }
  destruct (_ && fails E EOF_add_buffer); [discriminate|].
  set (ckt := set_up_input [] (set_xmit_pending _ (x_ckt s))).
  destruct (0 <? evbuffer_get_length (xmit_pending ckt)) eqn:Hdata.
  - unfold rr_send_blocks. destruct (fails E SBS_evbuffer_new); [discriminate|].
    destruct (rr_send_blocks_loop _ _ _ _) as [st s1|] eqn:Hloop; [|discriminate].
    destruct (st =? 0) eqn:Hst; cbn [negb]; [|discriminate].
    apply Z.eqb_eq in Hst. subst st. intros [= <-].
    destruct (rr_send_blocks_loop_frame _ _ _ _ _ _ Hloop) as [Hds Hin].
    pose proof (rr_send_blocks_loop_break _ _ _ _ _ Hloop) as Hbrk.
    apply rr_send_blocks_pick_none in Hbrk. destruct Hbrk as [_ Hempty].
    cbn [x_ckt x_conns set_sent_fin sent_fin downstreams xmit_pending up_input] in *.
    split; [reflexivity|]. split; [exact Hds|]. intros _.
    split; [now apply Hempty|]. split; [exact Hin|].
    intros d cn Hd Hcn. rewrite Hds in Hcn.
    destruct (send_eof_all_sent _ _ _ _ Hcn) as (_ & _ & _ & H). now apply H.
  - destruct (_ || _); [discriminate|].
    destruct (random_bytes E (x_rng s) (next_block_size ckt)) as [chaff rng].
    destruct (smartlist_get _ _) as [d0|]; [|discriminate].
    destruct (x_conns s !! d0) as [cn0|]; [|discriminate].
    destruct (rr_send_block _ _ _ _ _ _ _ _) as [st [[dest src] blk]|];
      [|discriminate].
    destruct (negb (st =? 0)); [discriminate|].
    destruct (random_range E rng RR_MIN_BLOCK RR_MAX_BLOCK) as [size rng'].
    intros [= <-].
    cbn [x_ckt x_conns set_sent_fin sent_fin downstreams xmit_pending up_input
         set_next_block_size set_send_offset advance_next_down set_next_down].
    split; [reflexivity|]. split; [reflexivity|]. intros _.
    apply Z.ltb_ge in Hdata. unfold evbuffer_get_length in Hdata.
    split.
    { subst ckt. cbn [xmit_pending set_up_input set_xmit_pending] in *.
      destruct (xmit_pending (x_ckt s) ++ up_input (x_ckt s));
        [reflexivity|cbn [length] in Hdata; lia]. }
    split; [reflexivity|].
    intros d cn Hd Hcn.
    destruct (send_eof_all_sent _ _ _ _ Hcn) as (_ & _ & _ & H). now apply H.
Qed.

Lemma roundrobin_circuit_send_eof_done_witness :
  exists s',
    roundrobin_circuit_send_eof (nominal (fun _ => 0)) fresh_one_downstream = Ret 0 s' /\
    sent_fin (x_ckt s') = true.
Proof.
  eexists. split; [vm_compute; reflexivity|].
  match goal with
  | |- sent_fin (x_ckt ?s1) = true =>
    refine (proj1 (roundrobin_circuit_send_eof_done (nominal (fun _ => 0))
                     fresh_one_downstream s1 _))
  end.
  vm_compute. reflexivity.
Defined.

(** X13: the second assertion of [rr_send_block] is on the destination.
    When [roundrobin_circuit_send] has a block of [next_block_size] > 0
    bytes to emit and the outbound buffer of [downstreams[next_down]] holds
    fewer bytes than that, the call does not return: the assertion
    [evbuffer_get_length(dest) >= length] fails. *)
Theorem roundrobin_circuit_send_short_outbound (E : env) (s : xmit_state)
    (target : nat) (cn : conn_t) :
  fails E CS_add_buffer = false -> fails E SBS_evbuffer_new = false ->
  0 < next_block_size (x_ckt s)
    <= evbuffer_get_length (xmit_pending (x_ckt s) ++ up_input (x_ckt s)) ->
  smartlist_get (downstreams (x_ckt s)) (next_down (x_ckt s)) = Some target ->
  x_conns s !! target = Some cn ->
  evbuffer_get_length (outbound cn) < next_block_size (x_ckt s) ->
  roundrobin_circuit_send E s = Abort AssertFailed.
Proof.
  intros Hadd Hnew Hsize Hget Hcn Hshort.
  unfold roundrobin_circuit_send, rr_send_blocks. rewrite Hadd, Hnew.
  unfold rr_send_blocks_fuel. cbn [rr_send_blocks_loop x_ckt].
  unfold rr_send_blocks_pick.
  cbn [xmit_pending set_up_input set_xmit_pending next_block_size sent_syn andb].
  replace (_ <? next_block_size (x_ckt s)) with false by settle_cmp.
  unfold rr_send_blocks_emit.
  cbn [downstreams next_down x_conns set_up_input set_xmit_pending xmit_pending
       circuit_id send_offset next_block_size].
  rewrite Hget, Hcn. unfold rr_send_block.
  change (evbuffer_get_length []) with 0. cbn [Z.eqb negb].
  replace (next_block_size (x_ckt s) <=? evbuffer_get_length (outbound cn))
    with false by settle_cmp.
  reflexivity.
Qed.

Lemma roundrobin_circuit_send_short_outbound_witness :
  roundrobin_circuit_send (nominal (fun _ => 0))
    (upstream_writes (payload 40)
       (mk_xmit (set_next_block_size 32 (x_ckt fresh_one_downstream))
                (x_conns fresh_one_downstream) 0))
  = Abort AssertFailed.
Proof.
  apply (roundrobin_circuit_send_short_outbound _ _ 1%nat idle_conn);
    vm_compute; first [reflexivity | split; congruence].
Defined.

End MoreDispatcher.


(** ** Attaching and dropping downstream connections *)

Section Lifecycle.

Lemma smartlist_remove_absent (sl : list nat) (conn : nat) :
  conn ∉ sl -> smartlist_remove sl conn = sl.
Proof.
  unfold smartlist_remove. induction sl as [|x sl IH]; intros Hout.
  - reflexivity.
  - apply not_elem_of_cons in Hout. destruct Hout as [Hx Hsl].
    rewrite filter_cons_True by congruence. now rewrite IH.
Qed.

Lemma smartlist_remove_app (sl sl' : list nat) (conn : nat) :
  smartlist_remove (sl ++ sl') conn
  = smartlist_remove sl conn ++ smartlist_remove sl' conn.
Proof. unfold smartlist_remove. apply filter_app. Qed.

Lemma smartlist_remove_nil (sl : list nat) (conn : nat) :
  smartlist_remove sl conn = [] <-> forall d, d ∈ sl -> d = conn.
Proof.
  unfold smartlist_remove. induction sl as [|x sl IH].
  - split; [|reflexivity]. intros _ d Hd. now apply elem_of_nil in Hd.
  - destruct (decide (x = conn)) as [->|Hx].
    + rewrite filter_cons_False by (intros H; now apply H).
      rewrite IH. split.
      * intros H d Hd. apply elem_of_cons in Hd. destruct Hd; auto.
      * intros H d Hd. apply H. now apply elem_of_cons; right.
    + rewrite filter_cons_True by exact Hx. split; [discriminate|].
      intros H. elim Hx. apply H. now apply elem_of_cons; left.
Qed.

(** X14: dropping a connection right after it was attached gives back the
    list of downstreams the circuit had; the circuit stays live when other
    downstreams are left, and otherwise is closed when both FINs are done
    and gets the 100 ms axe timer when not. *)
Theorem drop_after_add_downstream (ckt : roundrobin_circuit_t) (conn : nat) :
  conn ∉ downstreams ckt ->
  let ckt' := roundrobin_circuit_drop_downstream
                (roundrobin_circuit_add_downstream ckt conn) conn in
  downstreams ckt' = downstreams ckt /\
  life ckt' = match downstreams ckt with
              | _ :: _ => Live
              | [] => if sent_fin ckt && received_fin ckt
                      then Closed else AxeArmed 100
              end.
Proof.
  intros Hout ckt'. subst ckt'.
  unfold roundrobin_circuit_drop_downstream, roundrobin_circuit_add_downstream.
  cbn [downstreams set_life set_downstreams sent_fin received_fin].
  rewrite smartlist_remove_app, (smartlist_remove_absent _ _ Hout).
  replace (smartlist_remove [conn] conn) with (@nil nat)
    by (unfold smartlist_remove; now rewrite filter_cons_False by (intros H; now apply H)).
  rewrite app_nil_r. unfold smartlist_len.
  destruct (downstreams ckt) as [|d ds] eqn:Hds; cbn [length Z.of_nat Z.eqb].
  - destruct (sent_fin ckt && received_fin ckt); split; reflexivity.
  - replace (Z.of_nat (S (length ds)) =? 0) with false by settle_cmp.
    split; reflexivity.
Qed.

Lemma drop_after_add_downstream_witness :
  downstreams (roundrobin_circuit_drop_downstream
                 (roundrobin_circuit_add_downstream
                    (x_ckt fresh_one_downstream) 2%nat) 2%nat)
  = [1%nat].
Proof.
  refine (proj1 (drop_after_add_downstream (x_ckt fresh_one_downstream) 2%nat _)).
  vm_compute. intros H. apply list_elem_of_singleton in H. discriminate H.
Defined.

(** X15: [roundrobin_circuit_drop_downstream] closes a circuit only when
    both FINs are done and the dropped connection was the only one left:
    for a circuit that is not closed, the drop closes it exactly when
    [sent_fin] and [received_fin] hold and no connection other than the
    dropped one is in [downstreams]. *)
Theorem drop_downstream_closes (ckt : roundrobin_circuit_t) (conn : nat) :
  life ckt <> Closed ->
  life (roundrobin_circuit_drop_downstream ckt conn) = Closed <->
  sent_fin ckt = true /\ received_fin ckt = true /\
  forall d, d ∈ downstreams ckt -> d = conn.
Proof.
  intros Hlive. unfold roundrobin_circuit_drop_downstream.
  cbn [downstreams set_downstreams sent_fin received_fin].
  rewrite <- smartlist_remove_nil. unfold smartlist_len.
  destruct (smartlist_remove (downstreams ckt) conn) as [|d ds];
    cbn [length Z.of_nat Z.eqb].
  - destruct (sent_fin ckt), (received_fin ckt); cbn [andb set_life life];
      split; try discriminate; try tauto; intros (? & ? & _); discriminate.
  - replace (Z.of_nat (S (length ds)) =? 0) with false by settle_cmp.
    cbn [life set_downstreams]. split; [contradiction|].
    intros (_ & _ & H). discriminate H.
Qed.

Lemma drop_downstream_closes_witness :
  life (roundrobin_circuit_drop_downstream
          (set_received_fin true (set_sent_fin true (x_ckt fresh_one_downstream)))
          1%nat) = Closed.
Proof.
  apply drop_downstream_closes.
  - vm_compute. discriminate.
  - split; [reflexivity|]. split; [reflexivity|].
    intros d Hd. vm_compute in Hd. apply list_elem_of_singleton in Hd. exact Hd.
Defined.

End Lifecycle.

(** ** More on the reassembly queue *)

Section MoreReassembly.

Variable E : env.

Lemma merge_next_status (after : list rr_reassembly_elt) :
  forall p : rr_reassembly_elt,
    fails E RB_merge_next = false -> fst (fst (merge_next E p after)) = 0.
Proof.
  induction after as [|q rest IH]; intros p Hok; cbn [merge_next].
  - reflexivity.
  - destruct (elt_end p =? elt_offset q); [|reflexivity].
    rewrite Hok. now apply IH.
Qed.

Lemma merge_prev_status (before : list rr_reassembly_elt) :
  forall p : rr_reassembly_elt,
    fails E RB_merge_prev = false -> fst (fst (merge_prev E p before)) = 0.
Proof.
  induction before as [|q rest IH]; intros p Hok; cbn [merge_prev].
  - reflexivity.
  - destruct (elt_offset p =? elt_end q); [|reflexivity].
    rewrite Hok. now apply IH.
Qed.

Lemma rr_place_rejects (block : evbuffer) (hdr : rr_header)
    (rest : list rr_reassembly_elt) :
  forall (before q : list rr_reassembly_elt) (st : Z),
    fails E RB_merge_next = false -> fails E RB_merge_prev = false ->
    rr_place E block hdr before rest = (st, q) ->
    st = 0 \/ (st = -1 /\ q = rev before ++ rest).
Proof.
  induction rest as [|p after IH]; intros before q st Hn Hp; cbn [rr_place].
  - unfold link_new. destruct before as [|prev before'].
    + intros [= <- <-]. now left.
    + destruct (negb _); intros [= <- <-]; [right|now left].
      now rewrite app_nil_r.
  - destruct (hdr_end hdr =? elt_offset p).
    { unfold grow_front. destruct (fails E RB_grow_front).
      - intros [= <- <-]. now right.
      - pose proof (merge_prev_status before
          {| elt_data := block ++ elt_data p;
             elt_offset := u32 (elt_offset p - hdr_length hdr);
             elt_length := u16 (elt_length p + hdr_length hdr);
             elt_flags := Z.lor (elt_flags p) (hdr_flags hdr) |} Hp) as Hst.
        destruct (merge_prev E _ before) as [[st1 p2] before2].
        cbn [fst] in Hst. intros [= <- <-]. now left. }
    destruct (hdr_offset hdr =? elt_end p).
    { unfold grow_back. destruct (fails E RB_grow_back).
      - intros [= <- <-]. now right.
      - pose proof (merge_next_status after
          {| elt_data := elt_data p ++ block;
             elt_offset := elt_offset p;
             elt_length := u16 (elt_length p + hdr_length hdr);
             elt_flags := Z.lor (elt_flags p) (hdr_flags hdr) |} Hn) as Hst.
        destruct (merge_next E _ after) as [[st1 p2] after2].
        cbn [fst] in Hst. intros [= <- <-]. now left. }
    destruct (mod32_lt (hdr_end hdr) (elt_offset p)).
    { unfold link_new. destruct before as [|prev before'].
      - intros [= <- <-]. now left.
      - destruct (mod32_lt _ _); intros [= <- <-]; [now left|now right]. }
    intros Hrec. destruct (IH _ _ _ Hn Hp Hrec) as [H|[H ->]]; [now left|right].
    split; [exact H|]. cbn [rev]. now rewrite <- app_assoc.
Qed.

(** X16: a block that [rr_reassemble_block] does not accept leaves the
    circuit as it was, unless a buffer operation failed in the middle of a
    merge: when neither merge loop fails and the status is not 0, the
    status is -1 and the circuit, its reassembly queue included, is
    unchanged. *)
Theorem rr_reassemble_block_rejects (ckt ckt' : roundrobin_circuit_t)
    (block : evbuffer) (hdr : rr_header) (st : Z) :
  fails E RB_merge_next = false -> fails E RB_merge_prev = false ->
  rr_reassemble_block E ckt block hdr = Ret st ckt' ->
  st <> 0 ->
  st = -1 /\ ckt' = ckt.
Proof.
  intros Hn Hp. unfold rr_reassemble_block.
  destruct (rr_reassemble_queue E (reassembly_queue ckt) block hdr) as [st1 q] eqn:Hq.
  intros [= -> <-] Hst.
  assert (st = 0 \/ (st = -1 /\ q = reassembly_queue ckt)) as [H|[H ->]].
  { revert Hq. unfold rr_reassemble_queue.
    destruct (_ && negb _); [intros [= <- <-]; now left|].
    destruct (syn_rejected _ _); [intros [= <- <-]; now right|].
    destruct (fin_rejected _ _); [intros [= <- <-]; now right|].
    destruct (plain_rejected _ _); [intros [= <- <-]; now right|].
    intros Hq. apply (rr_place_rejects _ _ _ _ _ _ Hn Hp) in Hq. exact Hq. }
  - contradiction.
  - split; [exact H|]. now destruct ckt.
Qed.

Lemma u16_add (a b : Z) : u16 (u16 a + b) = u16 (a + b).
Proof. unfold u16, wrap. now rewrite Zplus_mod_idemp_l. Qed.

Lemma u16_add_r (a b : Z) : u16 (a + u16 b) = u16 (a + b).
Proof. unfold u16, wrap. now rewrite Zplus_mod_idemp_r. Qed.

Lemma evbuffer_get_length_app (a b : evbuffer) :
  evbuffer_get_length (a ++ b) = evbuffer_get_length a + evbuffer_get_length b.
Proof. unfold evbuffer_get_length. rewrite length_app. lia. Qed.

Lemma merge_next_sized (after : list rr_reassembly_elt) :
  forall (p p2 : rr_reassembly_elt) (after2 : list rr_reassembly_elt) (st : Z),
    elt_sized p -> Forall elt_sized after ->
    merge_next E p after = (st, p2, after2) ->
    elt_sized p2 /\ Forall elt_sized after2.
Proof.
  induction after as [|q rest IH]; intros p p2 after2 st Hp Hall; cbn [merge_next].
  - intros [= <- <- <-]. now split.
  - destruct (elt_end p =? elt_offset q).
    + destruct (fails E RB_merge_next); [intros [= <- <- <-]; now split|].
      apply Forall_cons in Hall. destruct Hall as [Hq Hrest].
      apply IH; [|exact Hrest].
      unfold elt_sized in *. cbn [elt_length elt_data].
      rewrite evbuffer_get_length_app, Hp, Hq, u16_add, u16_add_r. reflexivity.
    + intros [= <- <- <-]. now split.
Qed.

Lemma merge_prev_sized (before : list rr_reassembly_elt) :
  forall (p p2 : rr_reassembly_elt) (before2 : list rr_reassembly_elt) (st : Z),
    elt_sized p -> Forall elt_sized before ->
    merge_prev E p before = (st, p2, before2) ->
    elt_sized p2 /\ Forall elt_sized before2.
Proof.
  induction before as [|q rest IH]; intros p p2 before2 st Hp Hall; cbn [merge_prev].
  - intros [= <- <- <-]. now split.
  - destruct (elt_offset p =? elt_end q).
    + destruct (fails E RB_merge_prev); [intros [= <- <- <-]; now split|].
      apply Forall_cons in Hall. destruct Hall as [Hq Hrest].
      apply IH; [|exact Hrest].
      unfold elt_sized in *. cbn [elt_length elt_data].
      rewrite evbuffer_get_length_app, Hp, Hq, u16_add, u16_add_r.
      f_equal. lia.
    + intros [= <- <- <-]. now split.
Qed.

Lemma Forall_zipper (P : rr_reassembly_elt -> Prop)
    (before rest : list rr_reassembly_elt) :
  Forall P before -> Forall P rest -> Forall P (rev before ++ rest).
Proof.
  intros Hb Hr. apply Forall_app. split; [|exact Hr].
  now apply List.Forall_rev.
Qed.

Lemma rr_place_sized (block : evbuffer) (hdr : rr_header)
    (rest : list rr_reassembly_elt) :
  forall before : list rr_reassembly_elt,
    hdr_length hdr = u16 (evbuffer_get_length block) ->
    Forall elt_sized before -> Forall elt_sized rest ->
    Forall elt_sized (snd (rr_place E block hdr before rest)).
Proof.
  induction rest as [|p after IH]; intros before Hlen Hb Hr; cbn [rr_place].
  - assert (Forall elt_sized (snd (link_new block hdr before []))) as Hnew.
    { unfold link_new. cbn [snd]. apply Forall_zipper; [exact Hb|].
      apply Forall_cons. split; [exact Hlen|constructor]. }
    destruct before as [|prev before']; [exact Hnew|].
    destruct (negb _); [|exact Hnew].
    cbn [snd]. rewrite <- (app_nil_r (rev _)). now apply Forall_zipper.
  - pose proof Hr as Hr0. apply Forall_cons in Hr. destruct Hr as [Hp Hafter].
    destruct (hdr_end hdr =? elt_offset p).
    { unfold grow_front. destruct (fails E RB_grow_front).
      - cbn [snd]. now apply Forall_zipper.
      - destruct (merge_prev E _ before) as [[st1 p2] before2] eqn:Hm.
        apply merge_prev_sized in Hm; [|..|exact Hb].
        + destruct Hm as [Hp2 Hb2]. cbn [snd]. apply Forall_zipper; [exact Hb2|].
          apply Forall_cons. now split.
        + unfold elt_sized in *. cbn [elt_length elt_data].
          rewrite evbuffer_get_length_app, Hp, Hlen, u16_add, u16_add_r.
          f_equal. lia. }
    destruct (hdr_offset hdr =? elt_end p).
    { unfold grow_back. destruct (fails E RB_grow_back).
      - cbn [snd]. now apply Forall_zipper.
      - destruct (merge_next E _ after) as [[st1 p2] after2] eqn:Hm.
        apply merge_next_sized in Hm; [|..|exact Hafter].
        + destruct Hm as [Hp2 Ha2]. cbn [snd]. apply Forall_zipper; [exact Hb|].
          apply Forall_cons. now split.
        + unfold elt_sized in *. cbn [elt_length elt_data].
          rewrite evbuffer_get_length_app, Hp, Hlen, u16_add, u16_add_r.
          reflexivity. }
    destruct (mod32_lt (hdr_end hdr) (elt_offset p)).
    { assert (Forall elt_sized (snd (link_new block hdr before (p :: after)))) as Hnew.
      { unfold link_new. cbn [snd]. apply Forall_zipper; [exact Hb|].
        apply Forall_cons. split; [exact Hlen|exact Hr0]. }
      destruct before as [|prev before']; [exact Hnew|].
      destruct (mod32_lt _ _); [exact Hnew|].
      cbn [snd]. now apply Forall_zipper. }
    apply IH; [exact Hlen| |exact Hafter]. apply Forall_cons. now split.
Qed.

(** X17: the [length] field of every queue element stays the size of its
    buffer modulo 2^16.  If that holds of the queue and the header's length
    is the size of the block, it holds of the queue [rr_reassemble_block]
    leaves, whatever the status. *)
Theorem rr_reassemble_queue_sized (queue : list rr_reassembly_elt)
    (block : evbuffer) (hdr : rr_header) :
  hdr_length hdr = u16 (evbuffer_get_length block) ->
  Forall elt_sized queue ->
  Forall elt_sized (snd (rr_reassemble_queue E queue block hdr)).
Proof.
  intros Hlen Hall. unfold rr_reassemble_queue.
  destruct (_ && negb _); [exact Hall|].
  destruct (syn_rejected _ _); [exact Hall|].
  destruct (fin_rejected _ _); [exact Hall|].
  destruct (plain_rejected _ _); [exact Hall|].
  apply rr_place_sized; [|constructor|exact Hall].
  destruct (has_flag (hdr_flags hdr) RR_F_CHAFF); [|exact Hlen].
  cbn [hdr_length]. unfold evbuffer_drain, evbuffer_get_length.
  rewrite Nat2Z.id, skipn_all. reflexivity.
Qed.

Lemma queue_bytes_app (a b : list rr_reassembly_elt) :
  queue_bytes (a ++ b) = queue_bytes a ++ queue_bytes b.
Proof. unfold queue_bytes. now rewrite map_app, concat_app. Qed.

Lemma queue_bytes_cons (p : rr_reassembly_elt) (a : list rr_reassembly_elt) :
  queue_bytes (p :: a) = elt_data p ++ queue_bytes a.
Proof. reflexivity. Qed.

Lemma merge_next_bytes (after : list rr_reassembly_elt) :
  forall (p p2 : rr_reassembly_elt) (after2 : list rr_reassembly_elt) (st : Z),
    merge_next E p after = (st, p2, after2) ->
    queue_bytes (p2 :: after2) = queue_bytes (p :: after).
Proof.
  induction after as [|q rest IH]; intros p p2 after2 st; cbn [merge_next].
  - now intros [= <- <- <-].
  - destruct (elt_end p =? elt_offset q); [|now intros [= <- <- <-]].
    destruct (fails E RB_merge_next); [now intros [= <- <- <-]|].
    intros Hm. rewrite (IH _ _ _ _ Hm), !queue_bytes_cons.
    cbn [elt_data]. now rewrite <- app_assoc.
Qed.

Lemma merge_prev_bytes (before : list rr_reassembly_elt) :
  forall (p p2 : rr_reassembly_elt) (before2 : list rr_reassembly_elt) (st : Z),
    merge_prev E p before = (st, p2, before2) ->
    queue_bytes (rev before2) ++ elt_data p2
    = queue_bytes (rev before) ++ elt_data p.
Proof.
  induction before as [|q rest IH]; intros p p2 before2 st; cbn [merge_prev].
  - now intros [= <- <- <-].
  - destruct (elt_offset p =? elt_end q); [|now intros [= <- <- <-]].
    destruct (fails E RB_merge_prev); [now intros [= <- <- <-]|].
    intros Hm. rewrite (IH _ _ _ _ Hm). cbn [rev elt_data].
    rewrite queue_bytes_app, queue_bytes_cons, <- !app_assoc. reflexivity.
Qed.

Lemma rr_place_bytes (block : evbuffer) (hdr : rr_header)
    (rest : list rr_reassembly_elt) :
  forall (before q : list rr_reassembly_elt),
    rr_place E block hdr before rest = (0, q) ->
    exists l1 l2 : evbuffer,
      queue_bytes (rev before ++ rest) = l1 ++ l2 /\
      queue_bytes q = l1 ++ block ++ l2.
Proof.
  assert (forall before rest q,
            link_new block hdr before rest = (0, q) ->
            exists l1 l2 : evbuffer,
              queue_bytes (rev before ++ rest) = l1 ++ l2 /\
              queue_bytes q = l1 ++ block ++ l2) as Hnew.
  { intros before rest' q [= <-].
    exists (queue_bytes (rev before)), (queue_bytes rest').
    now rewrite !queue_bytes_app, queue_bytes_cons. }
  induction rest as [|p after IH]; intros before q; cbn [rr_place].
  - destruct before as [|prev before']; [apply Hnew|].
    destruct (negb _); [discriminate|apply Hnew].
  - destruct (hdr_end hdr =? elt_offset p).
    { unfold grow_front. destruct (fails E RB_grow_front); [discriminate|].
      destruct (merge_prev E _ before) as [[st1 p2] before2] eqn:Hm.
      intros [= -> <-]. apply merge_prev_bytes in Hm. cbn [elt_data] in Hm.
      exists (queue_bytes (rev before)), (elt_data p ++ queue_bytes after).
      rewrite !queue_bytes_app, !queue_bytes_cons. split; [reflexivity|].
      rewrite app_assoc, Hm, <- !app_assoc. reflexivity. }
    destruct (hdr_offset hdr =? elt_end p).
    { unfold grow_back. destruct (fails E RB_grow_back); [discriminate|].
      destruct (merge_next E _ after) as [[st1 p2] after2] eqn:Hm.
      intros [= -> <-]. apply merge_next_bytes in Hm.
      rewrite !queue_bytes_cons in Hm. cbn [elt_data] in Hm.
      exists (queue_bytes (rev before) ++ elt_data p), (queue_bytes after).
      rewrite !queue_bytes_app, !queue_bytes_cons. split.
      - now rewrite <- app_assoc.
      - rewrite Hm, <- !app_assoc. reflexivity. }
    destruct (mod32_lt (hdr_end hdr) (elt_offset p)).
    { destruct before as [|prev before']; [apply Hnew|].
      destruct (mod32_lt _ _); [apply Hnew|discriminate]. }
    intros Hrec. destruct (IH _ _ Hrec) as (l1 & l2 & H1 & H2).
    exists l1, l2. split; [|exact H2].
    rewrite <- H1. cbn [rev]. now rewrite <- app_assoc.
Qed.

(** X18: an accepted block goes into the byte stream of the queue in one
    piece and nothing that was queued is lost or reordered: the bytes of
    the queue after the call are the bytes before it with the block's
    payload (nothing, for chaff) inserted at one place. *)
Theorem rr_reassemble_queue_bytes (queue q : list rr_reassembly_elt)
    (block : evbuffer) (hdr : rr_header) :
  rr_reassemble_queue E queue block hdr = (0, q) ->
  exists l1 l2 : evbuffer,
    queue_bytes queue = l1 ++ l2 /\
    queue_bytes q
    = l1 ++ (if has_flag (hdr_flags hdr) RR_F_CHAFF then [] else block) ++ l2.
Proof.
  unfold rr_reassemble_queue.
  destruct (has_flag (hdr_flags hdr) RR_F_CHAFF) eqn:Hchaff; cbn [andb].
  - destruct (negb _).
    + intros [= <-]. now exists [], (queue_bytes queue).
    + destruct (syn_rejected _ _); [discriminate|].
      destruct (fin_rejected _ _); [discriminate|].
      destruct (plain_rejected _ _); [discriminate|].
      intros Hq. apply rr_place_bytes in Hq.
      replace (evbuffer_drain block (evbuffer_get_length block)) with (@nil Z) in Hq;
        [exact Hq|].
      unfold evbuffer_drain, evbuffer_get_length.
      now rewrite Nat2Z.id, skipn_all.
  - destruct (syn_rejected _ _); [discriminate|].
    destruct (fin_rejected _ _); [discriminate|].
    destruct (plain_rejected _ _); [discriminate|].
    apply rr_place_bytes.
Qed.

Lemma gaps_between_cons (p q : rr_reassembly_elt) (r : list rr_reassembly_elt) :
  gaps_between (p :: q :: r)
  = negb (elt_end p =? elt_offset q) && gaps_between (q :: r).
Proof. reflexivity. Qed.

Lemma gaps_between_join (l r : list rr_reassembly_elt) (x : rr_reassembly_elt) :
  gaps_between (l ++ x :: r) = gaps_between (l ++ [x]) && gaps_between (x :: r).
Proof.
  induction l as [|a l IH].
  - cbn [app]. now destruct r.
  - destruct l as [|b l].
    + cbn [app]. rewrite !gaps_between_cons.
      cbn [gaps_between]. now rewrite andb_true_r.
    + cbn [app] in *. rewrite !gaps_between_cons, IH. now rewrite andb_assoc.
Qed.

Lemma gaps_between_app (l r : list rr_reassembly_elt) :
  gaps_between (l ++ r) = true ->
  gaps_between l = true /\ gaps_between r = true.
Proof.
  destruct r as [|x r]; [rewrite app_nil_r; now split|].
  rewrite gaps_between_join. intros H. apply andb_true_iff in H.
  destruct H as [Hl Hr]. split; [|exact Hr].
  clear Hr. induction l as [|a l IH]; [reflexivity|].
  destruct l as [|b l]; [reflexivity|].
  cbn [app] in *. rewrite gaps_between_cons in *.
  apply andb_true_iff in Hl. destruct Hl as [Hab Hl].
  rewrite Hab. now apply IH.
Qed.

Lemma gaps_between_last (l : list rr_reassembly_elt) (x y : rr_reassembly_elt) :
  elt_offset x = elt_offset y ->
  gaps_between (l ++ [x]) = gaps_between (l ++ [y]).
Proof.
  intros Hxy. induction l as [|a l IH]; [reflexivity|].
  destruct l as [|b l].
  - cbn [app gaps_between]. now rewrite Hxy.
  - cbn [app] in *. now rewrite !gaps_between_cons, IH.
Qed.

Lemma gaps_between_first (r : list rr_reassembly_elt) (x y : rr_reassembly_elt) :
  elt_end x = elt_end y ->
  gaps_between (x :: r) = gaps_between (y :: r).
Proof. intros Hxy. destruct r; [reflexivity|]. now rewrite !gaps_between_cons, Hxy. Qed.

Lemma merge_next_offset (after : list rr_reassembly_elt) :
  forall (p p2 : rr_reassembly_elt) (after2 : list rr_reassembly_elt) (st : Z),
    merge_next E p after = (st, p2, after2) -> elt_offset p2 = elt_offset p.
Proof.
  induction after as [|q rest IH]; intros p p2 after2 st; cbn [merge_next].
  - now intros [= <- <- <-].
  - destruct (elt_end p =? elt_offset q); [|now intros [= <- <- <-]].
    destruct (fails E RB_merge_next); [now intros [= <- <- <-]|].
    intros Hm. now rewrite (IH _ _ _ _ Hm).
Qed.

Lemma elt_end_grown (off len more : Z) :
  0 <= len + more < 2 ^ 16 ->
  u32 (u32 (off - more) + u16 (len + more)) = u32 (off + len).
Proof.
  intros Hr. unfold u16, u32, wrap.
  rewrite (Z.mod_small (len + more)) by exact Hr.
  rewrite Zplus_mod_idemp_l. f_equal. lia.
Qed.

Lemma queued_length_nonneg (l : list rr_reassembly_elt) :
  Forall (fun e => 0 <= elt_length e) l -> 0 <= queued_length l.
Proof.
  induction 1 as [|e l He _ IHl]; cbn [queued_length foldr].
  - lia.
  - fold (queued_length l). lia.
Qed.

Lemma queued_length_cons (e : rr_reassembly_elt) (l : list rr_reassembly_elt) :
  queued_length (e :: l) = elt_length e + queued_length l.
Proof. reflexivity. Qed.

Lemma merge_prev_end (before : list rr_reassembly_elt) :
  forall (p p2 : rr_reassembly_elt) (before2 : list rr_reassembly_elt) (st : Z),
    Forall (fun e => 0 <= elt_length e) before -> 0 <= elt_length p ->
    elt_length p + queued_length before < 2 ^ 16 ->
    merge_prev E p before = (st, p2, before2) ->
    elt_end p2 = elt_end p /\ exists pre, before = pre ++ before2.
Proof.
  induction before as [|q rest IH]; intros p p2 before2 st Hall Hp Hsum;
    cbn [merge_prev].
  - intros [= <- <- <-]. split; [reflexivity|now exists []].
  - apply Forall_cons in Hall. destruct Hall as [Hq Hrest].
    rewrite queued_length_cons in Hsum.
    pose proof (queued_length_nonneg _ Hrest) as Hnn.
    destruct (elt_offset p =? elt_end q); [|intros [= <- <- <-]; split; [reflexivity|now exists []]].
    destruct (fails E RB_merge_prev); [intros [= <- <- <-]; split; [reflexivity|now exists []]|].
    intros Hm. apply IH in Hm; [|exact Hrest|..].
    + destruct Hm as [Hend [pre ->]]. split.
      * rewrite Hend. unfold elt_end. cbn [elt_offset elt_length].
        apply elt_end_grown. lia.
      * now exists (q :: pre).
    + cbn [elt_length]. unfold u16, wrap. apply Z.mod_pos_bound. lia.
    + cbn [elt_length]. unfold u16, wrap. rewrite Z.mod_small by lia. lia.
Qed.

Lemma link_new_gaps (block : evbuffer) (hdr : rr_header)
    (before rest q : list rr_reassembly_elt) (st : Z) :
  gaps_between (rev before ++ rest) = true ->
  match before with
  | prev :: _ => mod32_lt (elt_end prev) (hdr_offset hdr) = true
  | [] => True
  end ->
  match rest with
  | p :: _ => mod32_lt (hdr_end hdr) (elt_offset p) = true
  | [] => True
  end ->
  link_new block hdr before rest = (st, q) ->
  gaps_between q = true.
Proof.
  intros Hg Hprev Hnext [= _ <-].
  set (new := {| elt_data := block; elt_offset := hdr_offset hdr;
                 elt_length := hdr_length hdr; elt_flags := hdr_flags hdr |}).
  destruct (gaps_between_app _ _ Hg) as [Hb Hr].
  rewrite gaps_between_join. apply andb_true_iff. split.
  - destruct before as [|prev before']; [reflexivity|].
    cbn [rev] in *. rewrite <- app_assoc. cbn [app].
    rewrite gaps_between_join, Hb. cbn [andb gaps_between].
    rewrite andb_true_r. apply negb_true_iff, Z.eqb_neq.
    now apply mod32_lt_neq.
  - destruct rest as [|p after]; [reflexivity|].
    rewrite gaps_between_cons, Hr, andb_true_r.
    apply negb_true_iff, Z.eqb_neq.
    change (elt_end new) with (hdr_end hdr). now apply mod32_lt_neq.
Qed.

Lemma rr_place_gaps (block : evbuffer) (hdr : rr_header)
    (rest : list rr_reassembly_elt) :
  forall (before q : list rr_reassembly_elt),
    Forall (fun e => 0 <= elt_length e) before ->
    Forall (fun e => 0 <= elt_length e) rest ->
    0 <= hdr_length hdr ->
    hdr_length hdr + queued_length before + queued_length rest < 2 ^ 16 ->
    gaps_between (rev before ++ rest) = true ->
    rr_place E block hdr before rest = (0, q) ->
    gaps_between q = true.
Proof.
  induction rest as [|p after IH]; intros before q Hb Hr Hlen Hsum Hg;
    cbn [rr_place].
  - destruct before as [|prev before'].
    + now apply link_new_gaps.
    + destruct (mod32_lt (elt_end prev) (hdr_offset hdr)) eqn:Hlt; cbn [negb];
        [|discriminate].
      now apply link_new_gaps.
  - pose proof (queued_length_nonneg _ Hb) as Hbn.
    apply Forall_cons in Hr. destruct Hr as [Hp Hafter].
    pose proof (queued_length_nonneg _ Hafter) as Han.
    rewrite queued_length_cons in Hsum.
    destruct (hdr_end hdr =? elt_offset p) eqn:Hfront.
    { unfold grow_front. destruct (fails E RB_grow_front); [discriminate|].
      destruct (merge_prev E _ before) as [[st1 p2] before2] eqn:Hm.
      intros [= -> <-].
      pose proof (merge_prev_gap _ _ _ _ _ Hm) as Hgap.
      apply merge_prev_end in Hm; [|exact Hb|..].
      - destruct Hm as [Hend [pre ->]].
        rewrite rev_app_distr, <- app_assoc in Hg.
        destruct (gaps_between_app _ _ Hg) as [Hb2 Hrest].
        destruct (gaps_between_app _ _ Hrest) as [_ Hpa].
        rewrite gaps_between_join. apply andb_true_iff. split.
        + destruct before2 as [|b0 before2']; [reflexivity|].
          cbn [rev] in *. rewrite <- app_assoc. cbn [app].
          rewrite gaps_between_join, Hb2. cbn [andb gaps_between].
          rewrite andb_true_r. apply negb_true_iff, Z.eqb_neq. congruence.
        + rewrite (gaps_between_first _ _ p); [exact Hpa|].
          rewrite Hend. unfold elt_end. cbn [elt_offset elt_length].
          apply elt_end_grown. lia.
      - cbn [elt_length]. unfold u16, wrap. apply Z.mod_pos_bound. lia.
      - cbn [elt_length]. unfold u16, wrap. rewrite Z.mod_small by lia. lia. }
    destruct (hdr_offset hdr =? elt_end p) eqn:Hback.
    { unfold grow_back. destruct (fails E RB_grow_back); [discriminate|].
      destruct (merge_next E _ after) as [[st1 p2] after2] eqn:Hm.
      intros [= -> <-].
      pose proof (merge_next_offset _ _ _ _ _ Hm) as Hoff. cbn [elt_offset] in Hoff.
      rewrite gaps_between_join in Hg. apply andb_true_iff in Hg.
      destruct Hg as [Hbp Hpa].
      rewrite gaps_between_join. apply andb_true_iff. split.
      - now rewrite (gaps_between_last _ p2 p Hoff).
      - apply (merge_next_gap _ _ _ _ _ Hm).
        destruct after; [reflexivity|].
        rewrite gaps_between_cons in Hpa. apply andb_true_iff in Hpa. tauto. }
    destruct (mod32_lt (hdr_end hdr) (elt_offset p)) eqn:Hfit.
    { destruct before as [|prev before'].
      - now apply link_new_gaps.
      - destruct (mod32_lt (elt_end prev) (hdr_offset hdr)) eqn:Hlt; [|discriminate].
        now apply link_new_gaps. }
    apply IH.
    + apply Forall_cons. now split.
    + exact Hafter.
    + exact Hlen.
    + rewrite queued_length_cons. lia.
    + cbn [rev]. now rewrite <- app_assoc.
Qed.

(** X19: as long as the queue and the new block together hold fewer than
    2^16 bytes by their [length] fields, so that no 16-bit length wraps,
    [rr_reassemble_block] keeps the queue free of adjacent elements: if no
    element of the queue ends where the next one starts, the same holds
    of the queue an accepted block leaves. *)
Theorem rr_reassemble_queue_keeps_gaps (queue q : list rr_reassembly_elt)
    (block : evbuffer) (hdr : rr_header) :
  Forall (fun e => 0 <= elt_length e) queue ->
  0 <= hdr_length hdr ->
  hdr_length hdr + queued_length queue < 2 ^ 16 ->
  gaps_between queue = true ->
  rr_reassemble_queue E queue block hdr = (0, q) ->
  gaps_between q = true.
Proof.
  intros Hall Hlen Hsum Hg. unfold rr_reassemble_queue.
  destruct (_ && negb _); [now intros [= <-]|].
  destruct (syn_rejected _ _); [discriminate|].
  destruct (fin_rejected _ _); [discriminate|].
  destruct (plain_rejected _ _); [discriminate|].
  apply rr_place_gaps; try assumption; try constructor.
  - destruct (has_flag _ RR_F_CHAFF); [cbn [hdr_length]; lia|exact Hlen].
  - change (queued_length []) with 0.
    destruct (has_flag _ RR_F_CHAFF); cbn [hdr_length]; lia.
Qed.

End MoreReassembly.


Lemma rr_reassemble_block_rejects_witness :
  exists ckt',
    rr_reassemble_block (nominal (fun _ => 0))
      (set_reassembly_queue [mk_elt (payload 10) 20 10 0] roundrobin_circuit_create)
      (payload 10) (data_block 15 10) = Ret (-1) ckt' /\
    ckt' = set_reassembly_queue [mk_elt (payload 10) 20 10 0] roundrobin_circuit_create.
Proof.
  eexists. split; [vm_compute; reflexivity|].
  refine (proj2 (rr_reassemble_block_rejects (nominal (fun _ => 0)) _ _
                   (payload 10) (data_block 15 10) (-1) _ _ _ _));
    vm_compute; first [reflexivity | discriminate].
Defined.

Lemma rr_reassemble_queue_sized_witness :
  Forall elt_sized
    (snd (rr_reassemble_queue (nominal (fun _ => 0))
            [mk_elt (payload 10) 20 10 0] (payload 10) (data_block 10 10))).
Proof.
  apply rr_reassemble_queue_sized.
  - vm_compute. reflexivity.
  - repeat constructor.
Defined.

Lemma rr_reassemble_queue_bytes_witness :
  exists (q : list rr_reassembly_elt) (l1 l2 : evbuffer),
    rr_reassemble_queue (nominal (fun _ => 0))
      [mk_elt [1; 2] 0 2 0; mk_elt [5; 6] 4 2 0] [3; 4]
      {| hdr_ckt_id := 0; hdr_offset := 2; hdr_length := 2; hdr_flags := 0 |}
    = (0, q) /\
    [1; 2; 5; 6] = l1 ++ l2 /\ queue_bytes q = l1 ++ [3; 4] ++ l2.
Proof.
  eexists.
  match goal with
  | |- exists l1 l2, ?call = (0, ?q) /\ _ =>
    assert (call = (0, q)) as H by (vm_compute; reflexivity);
    destruct (rr_reassemble_queue_bytes _ _ _ _ _ H) as (l1 & l2 & H1 & H2);
    exists l1, l2; split; [exact H|split; [exact H1|exact H2]]
  end.
Defined.

Lemma rr_reassemble_queue_keeps_gaps_witness :
  exists q : list rr_reassembly_elt,
    rr_reassemble_queue (nominal (fun _ => 0))
      [mk_elt (payload 10) 0 10 0; mk_elt (payload 10) 30 10 0] (payload 10)
      (data_block 20 10) = (0, q) /\
    gaps_between q = true.
Proof.
  eexists. split; [vm_compute; reflexivity|].
  apply (rr_reassemble_queue_keeps_gaps (nominal (fun _ => 0))
           [mk_elt (payload 10) 0 10 0; mk_elt (payload 10) 30 10 0] _
           (payload 10) (data_block 20 10)).
  - repeat constructor; cbn; lia.
  - cbn. lia.
  - vm_compute. reflexivity.
  - vm_compute. reflexivity.
  - vm_compute. reflexivity.
Defined.

(** ** More on the upstream bridge *)

Section MorePush.

Variable E : env.

(** X20: a block that arrives in order on an empty queue goes straight
    through.  When the queue is empty, the block is no chaff, starts at
    [recv_offset], the SYN has been seen or comes with it (at offset 0), and
    no second FIN comes, [rr_reassemble_block] followed by
    [rr_push_to_upstream] appends the payload to the upstream output,
    moves [recv_offset] on by the header's length, and leaves the queue
    empty. *)
Theorem in_order_block_delivered (ckt : roundrobin_circuit_t)
    (block : evbuffer) (hdr : rr_header) :
  reassembly_queue ckt = [] ->
  has_flag (hdr_flags hdr) RR_F_CHAFF = false ->
  hdr_offset hdr = recv_offset ckt ->
  received_syn ckt || has_flag (hdr_flags hdr) RR_F_SYN = true ->
  (has_flag (hdr_flags hdr) RR_F_SYN = true -> hdr_offset hdr <= 0) ->
  has_flag (hdr_flags hdr) RR_F_FIN && received_fin ckt = false ->
  fails E PU_add_buffer = false ->
  exists c1 c2 : roundrobin_circuit_t,
    rr_reassemble_block E ckt block hdr = Ret 0 c1 /\
    rr_push_to_upstream E c1 = Ret 0 c2 /\
    up_output c2 = up_output ckt ++ block /\
    recv_offset c2 = u32 (recv_offset ckt + hdr_length hdr) /\
    reassembly_queue c2 = [] /\
    received_syn c2 = true /\
    received_fin c2 = received_fin ckt || has_flag (hdr_flags hdr) RR_F_FIN.
Proof.
  destruct ckt as [ui uo ec lf q xp ds cid so ro nbs nd rs rf ss sf].
  cbn [reassembly_queue recv_offset received_syn received_fin up_output].
  intros -> Hchaff Hoff Hsyn Hzero Hfin Hadd.
  unfold rr_reassemble_block, rr_reassemble_queue.
  cbn [reassembly_queue]. rewrite Hchaff. cbn [andb].
  replace (syn_rejected hdr []) with false.
  2:{ unfold syn_rejected. destruct (has_flag (hdr_flags hdr) RR_F_SYN); [|reflexivity].
      cbn [andb]. rewrite orb_false_r. symmetry. apply Z.ltb_ge. now apply Hzero. }
  replace (fin_rejected hdr []) with false
    by (unfold fin_rejected; cbn [last]; now rewrite andb_false_r).
  replace (plain_rejected hdr []) with false
    by (unfold plain_rejected; cbn [head]; now rewrite andb_false_r).
  cbn [rr_place link_new rev app].
  destruct rs, (has_flag (hdr_flags hdr) RR_F_SYN) eqn:Hs;
    cbn [orb] in Hsyn; try discriminate Hsyn.
  all: destruct (has_flag (hdr_flags hdr) RR_F_FIN) eqn:Hf, rf;
         cbn [andb] in Hfin; try discriminate Hfin.
  all: eexists; eexists; (split; [reflexivity|]).
  all: cbv beta iota zeta delta [rr_push_to_upstream
         set_received_syn set_up_output set_recv_offset set_received_fin
         set_recv_eof_count set_reassembly_queue
         up_output recv_offset received_fin recv_eof_count
         up_input life reassembly_queue xmit_pending downstreams circuit_id
         send_offset next_block_size next_down received_syn sent_syn sent_fin
         elt_offset elt_flags elt_data elt_length].
  all: replace (ro =? hdr_offset hdr) with true by settle_cmp.
  all: rewrite ?Hs, ?Hf, Hadd; cbn [negb andb orb].
  all: repeat (split; [reflexivity|]); reflexivity.
Qed.

(** X21: the circuit's EOF is signalled upstream at most once.  If
    [circuit_recv_eof] has been called once when [received_fin] is set and
    never when it is not, the same holds after [rr_push_to_upstream],
    whatever status it returns. *)
Theorem rr_push_to_upstream_eof_once (ckt ckt' : roundrobin_circuit_t) (st : Z) :
  recv_eof_count ckt = (if received_fin ckt then 1 else 0)%nat ->
  rr_push_to_upstream E ckt = Ret st ckt' ->
  recv_eof_count ckt' = (if received_fin ckt' then 1 else 0)%nat.
Proof.
  destruct ckt as [ui uo ec lf q xp ds cid so ro nbs nd rs rf ss sf].
  cbv beta iota zeta delta [rr_push_to_upstream
       set_received_syn set_up_output set_recv_offset set_received_fin
       set_recv_eof_count set_reassembly_queue
       up_output recv_offset received_fin recv_eof_count
       up_input life reassembly_queue xmit_pending downstreams circuit_id
       send_offset next_block_size next_down received_syn sent_syn sent_fin].
  intros Hinv.
  destruct q as [|ready rest]; [now intros [= _ <-]|].
  destruct (negb (ro =? elt_offset ready)); [now intros [= _ <-]|].
  destruct (negb rs && negb _); [now intros [= _ <-]|].
  destruct (fails E PU_add_buffer); [now intros [= _ <-]|].
  destruct (has_flag (elt_flags ready) RR_F_FIN), rf, rest as [|next rest'];
    cbn [negb andb orb]; try (intros H; discriminate H).
  all: try (destruct (elt_offset next =? u32 (ro + elt_length ready));
            [intros H; discriminate H|]).
  all: intros [= _ <-]; cbn [recv_eof_count received_fin]; congruence.
Qed.

End MorePush.


Lemma in_order_block_delivered_witness :
  exists c1 c2 : roundrobin_circuit_t,
    rr_reassemble_block (nominal (fun _ => 0)) roundrobin_circuit_create [7; 8; 9]
      {| hdr_ckt_id := 0; hdr_offset := 0; hdr_length := 3; hdr_flags := RR_F_SYN |}
    = Ret 0 c1 /\
    rr_push_to_upstream (nominal (fun _ => 0)) c1 = Ret 0 c2 /\
    up_output c2 = [7; 8; 9].
Proof.
  destruct (in_order_block_delivered (nominal (fun _ => 0))
              roundrobin_circuit_create [7; 8; 9]
              {| hdr_ckt_id := 0; hdr_offset := 0; hdr_length := 3;
                 hdr_flags := RR_F_SYN |})
    as (c1 & c2 & H1 & H2 & H3 & _).
  - reflexivity.
  - vm_compute. reflexivity.
  - reflexivity.
  - vm_compute. reflexivity.
  - intros _. vm_compute. discriminate.
  - vm_compute. reflexivity.
  - reflexivity.
  - exists c1, c2. split; [exact H1|]. split; [exact H2|exact H3].
Defined.

Lemma rr_push_to_upstream_eof_once_witness :
  exists ckt' : roundrobin_circuit_t,
    rr_push_to_upstream (nominal (fun _ => 0))
      (set_reassembly_queue [mk_elt [] 0 0 (Z.lor RR_F_SYN RR_F_FIN)]
         roundrobin_circuit_create) = Ret 0 ckt' /\
    recv_eof_count ckt' = 1%nat /\ received_fin ckt' = true.
Proof.
  eexists. split; [vm_compute; reflexivity|].
  split; [|vm_compute; reflexivity].
  refine (rr_push_to_upstream_eof_once (nominal (fun _ => 0))
            (set_reassembly_queue [mk_elt [] 0 0 (Z.lor RR_F_SYN RR_F_FIN)]
               roundrobin_circuit_create) _ 0 _ _);
    vm_compute; reflexivity.
Defined.

(** ** More on the receive path *)

Section MoreReceive.

(** X22: the loop of [roundrobin_conn_recv] takes a block only when 16
    bytes more than the block are buffered.  A buffer that holds one
    complete block, header and [length] bytes of payload, followed by
    fewer than 16 bytes, is left as it is: the loop stops with status 0,
    nothing is consumed and the circuit is not touched. *)
Theorem recv_loop_waits_beyond_block (E : env) (h : rr_header)
    (data more : evbuffer) (ckt : roundrobin_circuit_t) :
  valid_header h ->
  evbuffer_get_length data = hdr_length h ->
  evbuffer_get_length more < RR_WIRE_HDR_LEN ->
  let input := rr_write_header h ++ data ++ more in
  recv_loop E (length input) input ckt = Ret 0 (input, ckt).
Proof.
  intros Hv Hdata Hmore input.
  assert (rr_peek_header input = Some h) as Hpeek
    by now apply rr_peek_write_header.
  assert (evbuffer_get_length input < RR_MIN_BLOCK + hdr_length h) as Hav.
  { subst input. unfold evbuffer_get_length in *.
    rewrite !length_app, rr_write_header_length.
    unfold RR_MIN_BLOCK, RR_WIRE_HDR_LEN in *. lia. }
  clearbody input. destruct input as [|b input'].
  - reflexivity.
  - cbn [length recv_loop]. rewrite Hpeek.
    destruct (evbuffer_get_length (b :: input') <? RR_MIN_BLOCK); [reflexivity|].
    replace (evbuffer_get_length (b :: input') <? RR_MIN_BLOCK + hdr_length h)
      with true by (symmetry; now apply Z.ltb_lt).
    reflexivity.
Qed.

Lemma recv_loop_waits_beyond_block_witness :
  recv_loop (nominal (fun _ => 0)) 56
    (rr_write_header (data_block 0 40) ++ payload 40 ++ []) roundrobin_circuit_create
  = Ret 0 (rr_write_header (data_block 0 40) ++ payload 40 ++ [],
           roundrobin_circuit_create).
Proof.
  apply (recv_loop_waits_beyond_block (nominal (fun _ => 0)) (data_block 0 40)
           (payload 40) [] roundrobin_circuit_create).
  - unfold valid_header, is_u. cbn. lia.
  - vm_compute. reflexivity.
  - vm_compute. reflexivity.
Defined.

(** X23: [evbuffer_remove_buffer] returns the number of bytes it moved,
    and the loop takes every non-zero return for a failure.  So a block of
    the circuit that has a payload, once enough bytes are buffered for it
    to be taken, ends the call with -1: header and payload are gone from
    the inbound buffer, and the circuit has not seen them. *)
Theorem recv_loop_payload_block_fails (E : env) (input : evbuffer)
    (ckt : roundrobin_circuit_t) (hdr : rr_header) :
  rr_peek_header input = Some hdr ->
  0 < hdr_length hdr ->
  RR_MIN_BLOCK + hdr_length hdr <= evbuffer_get_length input ->
  circuit_id ckt = hdr_ckt_id hdr ->
  fails E CR_evbuffer_new = false -> fails E CR_drain = false ->
  fails E CR_remove_buffer = false ->
  recv_loop E (length input) input ckt
  = Ret (-1) (evbuffer_drain (evbuffer_drain input RR_WIRE_HDR_LEN) (hdr_length hdr),
              ckt).
Proof.
  intros Hpeek Hlen Hav Hid Hnew Hdrain Hrem.
  destruct input as [|b input'].
  - unfold evbuffer_get_length, RR_MIN_BLOCK, RR_WIRE_HDR_LEN in Hav.
    cbn [length] in Hav. lia.
  - cbn [length recv_loop]. rewrite Hpeek.
    replace (evbuffer_get_length (b :: input') <? RR_MIN_BLOCK) with false
      by settle_cmp.
    replace (evbuffer_get_length (b :: input') <? RR_MIN_BLOCK + hdr_length hdr)
      with false by settle_cmp.
    replace (circuit_id ckt =? hdr_ckt_id hdr) with true by settle_cmp.
    cbn [negb]. rewrite Hnew, Hdrain, Hrem.
    replace (Z.of_nat (length (take (Z.to_nat (hdr_length hdr))
                                 (evbuffer_drain (b :: input') RR_WIRE_HDR_LEN))) =? 0)
      with false; [reflexivity|].
    symmetry. apply Z.eqb_neq.
    unfold evbuffer_drain, evbuffer_get_length, RR_MIN_BLOCK, RR_WIRE_HDR_LEN in *.
    rewrite length_take, length_drop. change (Z.to_nat 16) with 16%nat. lia.
Qed.

Lemma recv_loop_payload_block_fails_witness :
  recv_loop (nominal (fun _ => 0)) 36
    (rr_write_header (data_block 0 4) ++ [1; 2; 3; 4] ++ bare_block 0 4 0)
    roundrobin_circuit_create
  = Ret (-1) (bare_block 0 4 0, roundrobin_circuit_create).
Proof.
  apply (recv_loop_payload_block_fails (nominal (fun _ => 0))
           (rr_write_header (data_block 0 4) ++ [1; 2; 3; 4] ++ bare_block 0 4 0)
           roundrobin_circuit_create (data_block 0 4));
    vm_compute; first [reflexivity | discriminate].
Defined.

Lemma set_reassembly_queue_twice (q q' : list rr_reassembly_elt)
    (ckt : roundrobin_circuit_t) :
  set_reassembly_queue q' (set_reassembly_queue q ckt) = set_reassembly_queue q' ckt.
Proof. reflexivity. Qed.

Lemma set_reassembly_queue_same (ckt : roundrobin_circuit_t) :
  set_reassembly_queue (reassembly_queue ckt) ckt = ckt.
Proof. now destruct ckt. Qed.

(** X24: the loop of [roundrobin_conn_recv] consumes a prefix of the
    inbound buffer and changes nothing of the circuit but its reassembly
    queue, whatever status it returns. *)
Theorem recv_loop_frame (E : env) (fuel : nat) :
  forall (input input' : evbuffer) (ckt ckt' : roundrobin_circuit_t) (st : Z),
    recv_loop E fuel input ckt = Ret st (input', ckt') ->
    (exists consumed : evbuffer, input = consumed ++ input') /\
    ckt' = set_reassembly_queue (reassembly_queue ckt') ckt.
Proof.
  assert (forall (input : evbuffer) (ckt : roundrobin_circuit_t),
             (exists consumed : evbuffer, input = consumed ++ input) /\
             ckt = set_reassembly_queue (reassembly_queue ckt) ckt) as Hsame.
  { intros input ckt. split; [now exists []|].
    symmetry. apply set_reassembly_queue_same. }
  induction fuel as [|fuel IH]; intros input input' ckt ckt' st; cbn [recv_loop].
  - destruct (_ <? RR_MIN_BLOCK); [|discriminate]. intros [= _ <- <-]. apply Hsame.
  - destruct (_ <? RR_MIN_BLOCK); [intros [= _ <- <-]; apply Hsame|].
    destruct (rr_peek_header input) as [hdr|]; [|intros [= _ <- <-]; apply Hsame].
    destruct (_ <? _ + _); [intros [= _ <- <-]; apply Hsame|].
    destruct (negb (circuit_id ckt =? _)); [intros [= _ <- <-]; apply Hsame|].
    destruct (fails E CR_evbuffer_new); [intros [= _ <- <-]; apply Hsame|].
    destruct (fails E CR_drain); [intros [= _ <- <-]; apply Hsame|].
    unfold evbuffer_drain.
    destruct (fails E CR_remove_buffer).
    { intros [= _ <- <-]. split; [|symmetry; apply set_reassembly_queue_same].
      eexists. symmetry. apply take_drop. }
    assert (exists consumed : evbuffer,
               input = consumed ++ drop (Z.to_nat (hdr_length hdr))
                                     (drop (Z.to_nat RR_WIRE_HDR_LEN) input))
      as [consumed Hcons].
    { rewrite drop_drop. eexists. symmetry. apply take_drop. }
    destruct (negb (Z.of_nat _ =? 0)).
    { intros [= _ <- <-]. split; [|symmetry; apply set_reassembly_queue_same].
      now exists consumed. }
    unfold rr_reassemble_block.
    destruct (rr_reassemble_queue _ _ _ _) as [st1 q].
    destruct (negb (st1 =? 0)).
    { intros [= _ <- <-]. split; [now exists consumed|reflexivity]. }
    intros Hrec. destruct (IH _ _ _ _ _ Hrec) as [[consumed' Hc'] Hckt].
    split.
    + exists (consumed ++ consumed'). rewrite <- app_assoc, <- Hc'. exact Hcons.
    + rewrite Hckt at 1. apply set_reassembly_queue_twice.
Qed.

Lemma recv_loop_frame_witness :
  exists (input' : evbuffer) (ckt' : roundrobin_circuit_t),
    recv_loop (nominal (fun _ => 0)) 48
      (bare_block 0 0 RR_F_SYN ++ bare_block 0 0 0 ++ bare_block 0 0 0)
      roundrobin_circuit_create = Ret 0 (input', ckt') /\
    ckt' = set_reassembly_queue (reassembly_queue ckt') roundrobin_circuit_create.
Proof.
  eexists. eexists. split; [vm_compute; reflexivity|].
  refine (proj2 (recv_loop_frame (nominal (fun _ => 0)) 48
                   (bare_block 0 0 RR_F_SYN ++ bare_block 0 0 0 ++ bare_block 0 0 0)
                   _ roundrobin_circuit_create _ 0 _)).
  vm_compute. reflexivity.
Defined.

(** X25: connections whose first block names the same unknown circuit id
    end up on one circuit.  The first call of [rr_find_or_make_circuit]
    creates the circuit and enters it in the table; the second call, for
    another connection and the same id, finds it: no second circuit is
    created, and the circuit's downstreams are the two connections, in the
    order of their arrival. *)
Theorem rr_find_or_make_circuit_shared (E : env) (w : world)
    (conn1 conn2 : nat) (id : Z) :
  table w !! id = None ->
  fails E FM_circuit_create = false -> fails E FM_open_upstream = false ->
  exists w1 w2 : world,
    rr_find_or_make_circuit E w conn1 id = Ret 0 w1 /\
    rr_find_or_make_circuit E w1 conn2 id = Ret 0 w2 /\
    next_handle w2 = S (next_handle w) /\
    downstreams <$> circuits w2 !! next_handle w = Some [conn1; conn2] /\
    forall cn : conn_t,
      conns w !! conn2 = Some cn ->
      conn_circuit <$> conns w2 !! conn2 = Some (Some (next_handle w)).
Proof.
  intros Hnone Hc Ho.
  destruct (rr_find_or_make_circuit_unknown E w conn1 id Hnone Hc Ho)
    as (w1 & Hmake & Htab & Hckt & Hconns).
  exists w1. eexists. split; [exact Hmake|].
  unfold rr_find_or_make_circuit at 1. rewrite Htab.
  split; [reflexivity|].
  unfold circuit_add_downstream. cbn [next_handle circuits conns].
  split.
  { revert Hmake. unfold rr_find_or_make_circuit.
    rewrite Hnone, Hc. cbn [circuit_create]. rewrite Ho.
    now intros [= <-]. }
  split.
  { rewrite lookup_alter_eq, Hckt. reflexivity. }
  intros cn Hcn. rewrite lookup_alter_eq, Hconns.
  destruct (decide (conn1 = conn2)) as [->|Hne].
  - rewrite lookup_alter_eq, Hcn. reflexivity.
  - rewrite lookup_alter_ne by exact Hne. rewrite Hcn. reflexivity.
Qed.

Lemma rr_find_or_make_circuit_shared_witness :
  exists w1 w2 : world,
    rr_find_or_make_circuit (nominal (fun _ => 0)) (loose_conn_world []) 7%nat 5
      = Ret 0 w1 /\
    rr_find_or_make_circuit (nominal (fun _ => 0)) w1 8%nat 5 = Ret 0 w2 /\
    downstreams <$> circuits w2 !! 0%nat = Some [7%nat; 8%nat].
Proof.
  destruct (rr_find_or_make_circuit_shared (nominal (fun _ => 0))
              (loose_conn_world []) 7%nat 8%nat 5)
    as (w1 & w2 & H1 & H2 & _ & H3 & _).
  - reflexivity.
  - reflexivity.
  - reflexivity.
  - exists w1, w2. split; [exact H1|]. split; [exact H2|exact H3].
Defined.

(** X26: when [circuit_open_upstream] fails, [rr_find_or_make_circuit]
    returns -1 and leaves no trace of the circuit it had created: the
    table, the circuits alive and the connections are the ones of before
    the call. *)
Theorem rr_find_or_make_circuit_open_fails (E : env) (w : world)
    (conn : nat) (id : Z) :
  table w !! id = None ->
  circuits w !! next_handle w = None ->
  fails E FM_circuit_create = false -> fails E FM_open_upstream = true ->
  exists w' : world,
    rr_find_or_make_circuit E w conn id = Ret (-1) w' /\
    table w' = table w /\ circuits w' = circuits w /\ conns w' = conns w.
Proof.
  intros Hnone Hfresh Hc Ho. unfold rr_find_or_make_circuit.
  rewrite Hnone, Hc. cbn [circuit_create]. rewrite Ho.
  eexists. split; [reflexivity|].
  unfold circuit_close. cbn [circuits next_handle table conns].
  rewrite lookup_insert_eq.
  cbn [circuit_id roundrobin_circuit_create downstreams foldl Z.eqb
       table circuits conns].
  split; [reflexivity|]. split; [|reflexivity].
  rewrite delete_insert_eq. now apply delete_id.
Qed.

Lemma rr_find_or_make_circuit_open_fails_witness :
  exists w' : world,
    rr_find_or_make_circuit
      (mk_env (fun site => match site with FM_open_upstream => true | _ => false end)
              (fun _ => 0))
      (loose_conn_world []) 7%nat 5 = Ret (-1) w' /\
    table w' = ∅.
Proof.
  destruct (rr_find_or_make_circuit_open_fails
              (mk_env (fun site => match site with FM_open_upstream => true | _ => false end)
                      (fun _ => 0))
              (loose_conn_world []) 7%nat 5)
    as (w' & H1 & H2 & _).
  - reflexivity.
  - reflexivity.
  - reflexivity.
  - reflexivity.
  - exists w'. split; [exact H1|exact H2].
Defined.

(** X27: [roundrobin_circuit_free] takes the circuit out of the table only
    when [ckt->circuit_id] is not zero, and a circuit made by
    [rr_find_or_make_circuit] keeps the id 0.  So when such a circuit is
    closed, its table entry stays: the table still maps the id to the
    circuit that is gone. *)
Theorem closed_circuit_stays_in_table (E : env) (w w1 : world)
    (conn : nat) (id : Z) :
  table w !! id = None ->
  fails E FM_circuit_create = false -> fails E FM_open_upstream = false ->
  rr_find_or_make_circuit E w conn id = Ret 0 w1 ->
  table (circuit_close w1 (next_handle w)) !! id = Some (next_handle w) /\
  circuits (circuit_close w1 (next_handle w)) !! next_handle w = None.
Proof.
  intros Hnone Hc Ho Hmake.
  destruct (rr_find_or_make_circuit_unknown E w conn id Hnone Hc Ho)
    as (w1' & Hmake' & Htab & Hckt & _).
  rewrite Hmake in Hmake'. injection Hmake' as <-.
  unfold circuit_close. rewrite Hckt.
  cbn [table circuits circuit_id roundrobin_circuit_add_downstream
       roundrobin_circuit_create set_life set_downstreams Z.eqb].
  split; [exact Htab|]. apply lookup_delete_eq.
Qed.

Lemma closed_circuit_stays_in_table_witness :
  exists w1 : world,
    rr_find_or_make_circuit (nominal (fun _ => 0)) (loose_conn_world []) 7%nat 5
      = Ret 0 w1 /\
    table (circuit_close w1 0%nat) !! 5 = Some 0%nat.
Proof.
  eexists. split; [vm_compute; reflexivity|].
  refine (proj1 (closed_circuit_stays_in_table (nominal (fun _ => 0))
                   (loose_conn_world []) _ 7%nat 5 _ _ _ _));
    vm_compute; reflexivity.
Defined.

End MoreReceive.
